(** * vueify: the single-file-component compiler (lib/compiler.js)

    A shallow embedding of [lib/compiler.js]: the part processors, the join of
    their promises, the source-map builder and the merge step, over an explicit
    world (file system, resolved-parts cache, object references, effect trace).

    The collaborators the module [require]s (the component parser, the compiler
    registry, the style rewriter, the template translator, [gen-id], [hash-sum],
    [path], [JSON.stringify], [convert-source-map]) are fields of the record
    [Externals]; the statements quantify over them. *)

From Stdlib Require Import Ascii String.
From stdpp Require Import base option strings list gmap.

Set Default Proof Using "Type".

(** ** JavaScript strings

    A string is the sequence of bytes of its UTF-8 text, as a literal of
    this file is. On ASCII text a byte is a character, and lengths and
    offsets are those of the language. *)

Definition LF : ascii := "010"%char.
Definition CR : ascii := "013"%char.

(** The line feed and the double quote, as one-character strings. *)
Definition nl : string := String LF EmptyString.
Definition dq : string := String "034"%char EmptyString.

(** [s.split(/\r?\n/g)]: a separator is a line feed, with the carriage return
    before it when there is one. [cur] holds the current piece, reversed. *)
Fixpoint split_from (cur : list ascii) (s : string) : list string :=
  match s with
  | EmptyString => [string_of_list_ascii (rev cur)]
  | String c s' =>
      if Ascii.eqb c LF then string_of_list_ascii (rev cur) :: split_from [] s'
      else
        match s' with
        | String c' s'' =>
            if Ascii.eqb c CR && Ascii.eqb c' LF
            then string_of_list_ascii (rev cur) :: split_from [] s''
            else split_from (c :: cur) s'
        | EmptyString => split_from (c :: cur) s'
        end
  end.

Definition split_lines (s : string) : list string := split_from [] s.

(** The number of line feeds of a string. *)
Fixpoint count_lf (s : string) : nat :=
  match s with
  | EmptyString => 0
  | String c s' => (if Ascii.eqb c LF then 1 else 0) + count_lf s'
  end.

(** [a.join(sep)] on an array of strings. *)
Fixpoint join (sep : string) (l : list string) : string :=
  match l with
  | [] => EmptyString
  | [x] => x
  | x :: l' => x +:+ sep +:+ join sep l'
  end.

(** [s.trim()] strips the white space and the line terminators of the
    language from both ends: U+0009 to U+000D and U+0020, and U+00A0, U+1680,
    U+2000 to U+200A, U+2028, U+2029, U+202F, U+205F, U+3000 and U+FEFF. A
    string here is the sequence of bytes of its UTF-8 text, so the first six
    are one byte each, U+00A0 is two and the others are three. *)
Definition space1 (a : nat) : bool :=
  (a =? 32) || (a =? 9) || (a =? 10) || (a =? 11) || (a =? 12) || (a =? 13).

Definition space2 (a b : nat) : bool := (a =? 194) && (b =? 160).

Definition space3 (a b c : nat) : bool :=
  ((a =? 225) && (b =? 154) && (c =? 128)) ||
  ((a =? 226) && (b =? 128) &&
   (((128 <=? c) && (c <=? 138)) || (c =? 168) || (c =? 169) || (c =? 175))) ||
  ((a =? 226) && (b =? 129) && (c =? 159)) ||
  ((a =? 227) && (b =? 128) && (c =? 128)) ||
  ((a =? 239) && (b =? 187) && (c =? 191)).

(** The bytes left once the white space at the head is gone. [back] tells
    that the bytes come last first, as [trim_end] reads them. *)
Fixpoint drop_spaces (back : bool) (l : list ascii) : list ascii :=
  match l with
  | a :: l1 =>
      if space1 (nat_of_ascii a) then drop_spaces back l1
      else
        match l1 with
        | b :: l2 =>
            if (if back then space2 (nat_of_ascii b) (nat_of_ascii a)
                else space2 (nat_of_ascii a) (nat_of_ascii b))
            then drop_spaces back l2
            else
              match l2 with
              | c :: l3 =>
                  if (if back
                      then space3 (nat_of_ascii c) (nat_of_ascii b) (nat_of_ascii a)
                      else space3 (nat_of_ascii a) (nat_of_ascii b) (nat_of_ascii c))
                  then drop_spaces back l3
                  else l
              | [] => l
              end
        | [] => l
        end
  | [] => []
  end.

Definition trim_start (s : string) : string :=
  string_of_list_ascii (drop_spaces false (list_ascii_of_string s)).

Definition trim_end (s : string) : string :=
  string_of_list_ascii (rev (drop_spaces true (rev (list_ascii_of_string s)))).

(** [s.trim()]. *)
Definition trim (s : string) : string := trim_end (trim_start s).

(** [s.slice(0, n)] for an offset [n] that is not negative. *)
Definition slice0 (n : nat) (s : string) : string := substring 0 n s.

(** ** JavaScript values *)

(** An incoming source map, as [originalPositionFor({line, column: 0}).line]
    reads it: the original line of each generated line that has one. *)
Abbreviation rawmap := (gmap nat nat).

(** The two shapes of object the module handles: the [{code, map}] pair a
    registry transform may return and the render-function pair of a template. *)
Inductive shape :=
| CodeMap (code : string) (map : option rawmap)
| RenderFns (render staticRenderFns : string).

Inductive value :=
| VUndefined
| VNull
| VString (s : string)
| VObject (ref : nat) (o : shape).

(** [a === b]: by value on primitives, by reference on objects. *)
Definition strict_eq (a b : value) : bool :=
  match a, b with
  | VUndefined, VUndefined => true
  | VNull, VNull => true
  | VString s, VString t => bool_decide (s = t)
  | VObject r _, VObject r' _ => bool_decide (r = r')
  | _, _ => false
  end.

(** [a !== b]. *)
Definition strict_ne (a b : value) : bool := negb (strict_eq a b).

(** The condition of [if (v)], [v ? _ : _], [v || _] and [v && _]. *)
Definition truthy (v : value) : bool :=
  match v with
  | VUndefined | VNull => false
  | VString s => negb (bool_decide (s = EmptyString))
  | VObject _ _ => true
  end.

(** The string a value becomes in a concatenation and as a property key. *)
Definition to_str (v : value) : string :=
  match v with
  | VUndefined => "undefined"
  | VNull => "null"
  | VString s => s
  | VObject _ _ => "[object Object]"
  end.

(** ** Errors, promises *)

(** What is thrown or passed to a callback as its error: a [TypeError] of the
    language, or the error value of a collaborator with its optional
    [codeFrame]. *)
Inductive error :=
| TypeError (msg : string)
| Failure (msg : string) (codeFrame : value).

Inductive throwable (A : Type) :=
| Ret (a : A)
| Throw (e : error).
Arguments Ret {A} a.
Arguments Throw {A} e.

(** The promise of [compileAsPromise], by what the call
    [compile(source, cb, compiler, filePath)] in its executor comes to.
    - [Reported emitted r]: the callee, when it is done, emits [dependency]
      on the emitter [compiler] it was handed for each file of [emitted], and
      then calls [cb] with the error or the result [r].
      [Promise.resolve(source)] is [Reported [] (Ret source)].
    - [Thrown e]: the call throws [e]; the executor's exception rejects the
      promise, and [cb] is not called.
    - [Silent]: the call returns and [cb] is never called; the promise never
      settles. *)
Inductive promise (A : Type) :=
| Reported (emitted : list string) (r : throwable A)
| Thrown (e : error)
| Silent.
Arguments Reported {A} emitted r.
Arguments Thrown {A} e.
Arguments Silent {A}.

(** [v.p] for the properties the module reads, on a value [v] that is neither
    [undefined] nor [null] (the callers test that first). *)
Definition get_prop (v : value) (p : string) : value :=
  match v with
  | VObject _ (CodeMap code _) =>
      if bool_decide (p = "code") then VString code else VUndefined
  | VObject _ (RenderFns r s) =>
      if bool_decide (p = "render") then VString r
      else if bool_decide (p = "staticRenderFns") then VString s
      else VUndefined
  | _ => VUndefined
  end.

Global Instance throwable_ret : MRet throwable := λ A a, Ret a.
Global Instance throwable_bind : MBind throwable :=
  λ A B f m, match m with Ret a => f a | Throw e => Throw e end.
Global Instance throwable_fmap : FMap throwable :=
  λ A B f m, match m with Ret a => Ret (f a) | Throw e => Throw e end.

(** ** The parsed component, the options, the environment *)

(** An attribute of a block that may be absent: [undefined] or its text. *)
Definition attr (a : option string) : value :=
  match a with
  | Some s => VString s
  | None => VUndefined
  end.

(** One block of the descriptor [vueCompiler.parseComponent] returns. *)
Record block := {
  part_lang : option string;
  part_src : option string;
  part_content : string;
  part_scoped : bool;
  part_start : nat
}.

Record descriptor := {
  parts_template : option block;
  parts_script : option block;
  parts_styles : list block
}.

(** [compiler.options], by the truth of the two keys the module reads. *)
Record Options := {
  sourceMap : bool;
  extractCSS : bool
}.

(** [process.env], as [compile] reads it. *)
Record Env := {
  isProduction : bool;
  isServer : bool;
  isTest : bool
}.

(** The accumulator of one run. [res_map] is [None] until a script transform
    supplies a map. *)
Record resolvedParts := {
  res_template : value;
  res_script : value;
  res_map : option rawmap;
  res_styles : list string
}.

(** One [addMapping] call; every column is 0. *)
Record mapping := {
  m_source : string;
  m_generated : nat;
  m_original : nat
}.

(** A [SourceMapGenerator], with the [_hashedFilename] the module hangs on it. *)
Record generator := {
  g_sourceContent : option (string * string);
  g_mappings : list mapping;
  g_hashedFilename : string
}.

(** Modelled from the spec: [lib/compilers] is not among the sources. A
    registry transform is an asynchronous function
    [(source, callback, contextObject, filePath)]: here, what a call of it
    comes to for a source and a file path. The transforms of the repository
    use the context object to report the files they read, which is what
    [Reported] carries. *)
Abbreviation transform := (value → string → promise value).

Record Externals := {
  genId : string → string;
  parseComponent : string → throwable descriptor;
  compilers : gmap string transform;
  hasBabel : bool;
  rewriteStyle : string → string → bool → Options → throwable string;
  translate : value → throwable (string * string);
  insertCSSPath : string;
  hotReloadAPIPath : string;
  path_dirname : string → string;
  path_resolve : string → string → string;
  path_basename : string → string;
  hash : string → string;
  JSON_stringify : string → string;
  toComment : generator → string
}.

(** ** The world *)

Inductive event :=
| Emit_dependency (srcPath : string)
| Emit_style (file style : string)
| Read_file (path : string)
| Console_error (msg : string).

Record World := {
  w_fs : gmap string string;
  resolvedPartsCache : gmap string resolvedParts;
  w_nextRef : nat;
  w_trace : list event
}.

Definition State (A : Type) : Type := World → A * World.

Global Instance state_ret : MRet State := λ A a w, (a, w).
Global Instance state_bind : MBind State :=
  λ A B f m w, let '(a, w') := m w in f a w'.

Definition log (e : event) : State unit :=
  λ w, (tt, {| w_fs := w_fs w; resolvedPartsCache := resolvedPartsCache w;
               w_nextRef := w_nextRef w; w_trace := w_trace w ++ [e] |}).

Definition logAll (evs : list event) : State unit :=
  λ w, (tt, {| w_fs := w_fs w; resolvedPartsCache := resolvedPartsCache w;
               w_nextRef := w_nextRef w; w_trace := w_trace w ++ evs |}).

(** [fs.readFileSync(path, 'utf-8')]: the text, or [None] when it throws. The
    attempt is recorded in the trace. *)
Definition fs_lookup (path : string) : State (option string) :=
  λ w, (w_fs w !! path, w).

Definition readFileSync (path : string) : State (option string) :=
  _ ← log (Read_file path);
  fs_lookup path.

(** A fresh object reference. *)
Definition alloc : State nat :=
  λ w, (w_nextRef w,
        {| w_fs := w_fs w; resolvedPartsCache := resolvedPartsCache w;
           w_nextRef := S (w_nextRef w); w_trace := w_trace w |}).

Definition cache_get (id : string) : State (option resolvedParts) :=
  λ w, (resolvedPartsCache w !! id, w).

Definition cache_set (id : string) (parts : resolvedParts) : State unit :=
  λ w, (tt, {| w_fs := w_fs w;
               resolvedPartsCache := <[id := parts]> (resolvedPartsCache w);
               w_nextRef := w_nextRef w; w_trace := w_trace w |}).

Section Compiler.

Context (E : Externals).

(** ** Loading and compiling one part *)

Definition loadSrc (src filePath : string) : State value :=
  let dir := path_dirname E filePath in
  let srcPath := path_resolve E dir src in
  _ ← log (Emit_dependency srcPath);
  r ← readFileSync srcPath;
  match r with
  | Some text => mret (VString text)
  | None =>
      _ ← log (Console_error
                 ("Failed to load src: " +:+ dq +:+ src +:+ dq +:+
                  " from file: " +:+ dq +:+ filePath +:+ dq));
      mret VUndefined
  end.

Definition getContent (part : block) (filePath : string) : State value :=
  if truthy (attr (part_src part))
  then loadSrc (to_str (attr (part_src part))) filePath
  else mret (VString (part_content part)).

(** [Object.prototype]: the registry is a plain object, so [compilers[lang]]
    finds the properties it inherits as well as its own. Each is truthy.
    Called as [compile(source, cb, compiler, filePath)], with no receiver and
    a source that is a string or [undefined]: [Object], [toString] and
    [isPrototypeOf] return without a look at [cb]; the other methods convert
    their receiver to an object first and throw; [__proto__] is the
    prototype itself, an object, and calling it throws. *)
Definition objectPrototype (key : string) : option (promise value) :=
  if bool_decide (key ∈ ["constructor"; "toString"; "isPrototypeOf"])
  then Some Silent
  else if bool_decide (key ∈ ["hasOwnProperty"; "propertyIsEnumerable";
                              "valueOf"; "toLocaleString";
                              "__defineGetter__"; "__defineSetter__";
                              "__lookupGetter__"; "__lookupSetter__"])
  then Some (Thrown (TypeError "Cannot convert undefined or null to object"))
  else if bool_decide (key = "__proto__")
  then Some (Thrown (TypeError "compile is not a function"))
  else None.

(** The promise [compileAsPromise] returns: that of the call of
    [compilers[lang]] when the registry has such a property, its own or an
    inherited one, and [Promise.resolve(source)] when it has none. *)
Definition compileAsPromise (type : string) (source lang : value)
    (filePath : string) : State (promise value) :=
  match compilers E !! to_str lang with
  | Some compile => mret (compile source filePath)
  | None =>
      match objectPrototype (to_str lang) with
      | Some inherited => mret inherited
      | None => mret (Reported [] (Ret source))
      end
  end.

(** The callback [(err, res) => ...] that [compileAsPromise] hands to the
    transform, run when the transform calls it: it rejects with the error or
    resolves with the result. The [codeFrame] of an error is printed on the
    next tick, which comes first once the callback has returned, before the
    handlers of the promise run. *)
Definition compileCallback (r : throwable value) : State (throwable value) :=
  match r with
  | Throw err =>
      _ ← match err with
          | Failure _ codeFrame =>
              if truthy codeFrame then log (Console_error (to_str codeFrame))
              else mret tt
          | TypeError _ => mret tt
          end;
      mret (Throw err)
  | Ret res => mret (Ret res)
  end.

(** Modelled from the spec: [lib/template-compiler] is not among the sources.
    The translator returns the render-function pair of a template; the pair is
    an object of its own, made by the call, whose [render] and
    [staticRenderFns] the merge reads. What it makes of the text is the
    external [translate]. *)
Definition compileTemplate (res : value) : State (throwable value) :=
  match translate E res with
  | Throw e => mret (Throw e)
  | Ret (render, staticRenderFns) =>
      ref ← alloc;
      mret (Ret (VObject ref (RenderFns render staticRenderFns)))
  end.

Inductive kind :=
| Template
| Script
| Style (part : block).

(** A part processor that has been started, up to its [then]: its kind and
    the promise of [compileAsPromise] its [then] callback waits for, or
    [None] for the [Promise.resolve()] of an absent part. *)
Record pending := {
  p_kind : kind;
  p_promise : option (promise value)
}.

Definition processTemplate (part : option block) (filePath : string)
    : State pending :=
  match part with
  | None => mret {| p_kind := Template; p_promise := None |}
  | Some part =>
      template ← getContent part filePath;
      p ← compileAsPromise "template" template (attr (part_lang part)) filePath;
      mret {| p_kind := Template; p_promise := Some p |}
  end.

(** [part.lang || (hasBabel ? 'babel' : null)]. *)
Definition scriptLang (part : block) : value :=
  if truthy (attr (part_lang part)) then attr (part_lang part)
  else if hasBabel E then VString "babel" else VNull.

Definition processScript (part : option block) (filePath : string)
    : State pending :=
  match part with
  | None => mret {| p_kind := Script; p_promise := None |}
  | Some part =>
      let lang := scriptLang part in
      script ← getContent part filePath;
      p ← compileAsPromise "script" script lang filePath;
      mret {| p_kind := Script; p_promise := Some p |}
  end.

Definition processStyle (part : block) (filePath : string)
    : State pending :=
  style ← getContent part filePath;
  p ← compileAsPromise "style" style (attr (part_lang part)) filePath;
  mret {| p_kind := Style part; p_promise := Some p |}.

(** The [then] callbacks: what a processor does with the result [res] of its
    transform. Each returns the accumulator it has written, or the error it
    rejects with. *)
Definition thenTemplate (res : value) (parts : resolvedParts)
    : State (throwable resolvedParts) :=
  t ← compileTemplate res;
  match t with
  | Throw e => mret (Throw e)
  | Ret v =>
      mret (Ret {| res_template := v; res_script := res_script parts;
                   res_map := res_map parts; res_styles := res_styles parts |})
  end.

Definition thenScript (res : value) (parts : resolvedParts)
    : State (throwable resolvedParts) :=
  match res with
  | VString _ =>
      mret (Ret {| res_template := res_template parts; res_script := res;
                   res_map := res_map parts; res_styles := res_styles parts |})
  | VUndefined | VNull =>
      mret (Throw (TypeError ("Cannot read properties of " +:+ to_str res)))
  | VObject _ (CodeMap code map) =>
      mret (Ret {| res_template := res_template parts; res_script := VString code;
                   res_map := map; res_styles := res_styles parts |})
  | VObject _ (RenderFns _ _) =>
      mret (Ret {| res_template := res_template parts; res_script := VUndefined;
                   res_map := None; res_styles := res_styles parts |})
  end.


Definition thenStyle (opts : Options) (id : string) (part : block)
    (res : value) (parts : resolvedParts) : State (throwable resolvedParts) :=
  match res with
  | VString s =>
      let res := trim s in
      match rewriteStyle E id res (part_scoped part) opts with
      | Throw e => mret (Throw e)
      | Ret res =>
          mret (Ret {| res_template := res_template parts;
                       res_script := res_script parts; res_map := res_map parts;
                       res_styles := res_styles parts ++ [res] |})
      end
  | VUndefined | VNull =>
      mret (Throw (TypeError ("Cannot read properties of " +:+ to_str res)))
  | VObject _ _ => mret (Throw (TypeError "res.trim is not a function"))
  end.

(** ** The source-map builder *)

(** The body of the [forEach] of [generateSourceMap] at one [index]: the
    mapping it adds, if it adds one. *)
Definition lineMapping (hashedFilename : string) (inMapConsumer : option rawmap)
    (generatedOffset index : nat) : option mapping :=
  let ln := index + 1 in
  let originalLine :=
    match inMapConsumer with
    | Some consumer => consumer !! ln
    | None => Some ln
    end in
  match originalLine with
  | Some (S n) =>
      Some {| m_source := hashedFilename;
              m_generated := ln + generatedOffset;
              m_original := S n |}
  | _ => None
  end.

Definition generateSourceMap (filePath content : string)
    (resolvedParts : resolvedParts) (script : value) (output : string)
    : throwable generator :=
  let hashedFilename :=
    path_basename E filePath +:+ "?" +:+ hash E (filePath +:+ content) in
  let inMap := res_map resolvedParts in
  let inMapConsumer := inMap in
  let generatedOffset :=
    (if truthy (VString output) then length (split_lines output) else 0) + 1 in
  match script with
  | VString script =>
      let mappings :=
        omap (lineMapping hashedFilename inMapConsumer generatedOffset)
             (seq 0 (length (split_lines script))) in
      match inMapConsumer with
      | Some _ =>
          Ret {| g_sourceContent := Some (hashedFilename, content);
                 g_mappings := mappings;
                 g_hashedFilename := hashedFilename |}
      | None =>
          Throw (TypeError "Cannot read properties of undefined (reading 'destroy')")
      end
  | _ => Throw (TypeError "script.split is not a function")
  end.

(** [map.addMapping] refuses a generated line that is not positive. *)
Definition addTemplateMapping (content : string) (parts : descriptor)
    (output : string) (map : generator) (beforeLines : nat)
    : throwable generator :=
  let afterLines := length (split_lines output) in
  match parts_template parts with
  | Some template =>
      let templateLine :=
        length (split_lines (slice0 (part_start template) content)) in
      if (beforeLines =? 0) && (beforeLines <? afterLines)
      then Throw (Failure "Invalid mapping" VUndefined)
      else
      Ret {| g_sourceContent := g_sourceContent map;
             g_mappings :=
               (g_mappings map ++
                ((λ line, {| m_source := g_hashedFilename map;
                             m_generated := line;
                             m_original := templateLine |})
                   <$> seq beforeLines (afterLines - beforeLines)))%list;
             g_hashedFilename := g_hashedFilename map |}
  | None => Throw (TypeError "Cannot read properties of null (reading 'start')")
  end.

(** ** The pieces of the output *)

Definition styleInjection (style : string) : string :=
  "var __vueify_style_dispose__ = require(" +:+ dq +:+ insertCSSPath E +:+ dq +:+
  ").insert(" +:+ style +:+ ")" +:+ nl.

Definition scriptBlock (script : string) : string :=
  ";(function(){" +:+ nl +:+ script +:+ nl +:+ "})()" +:+ nl +:+
  "if (module.exports.__esModule) module.exports = module.exports.default" +:+ nl.

Definition optionsBinding : string :=
  "var __vue__options__ = (typeof module.exports === " +:+ dq +:+ "function" +:+ dq +:+
  "? module.exports.options" +:+
  ": module.exports)" +:+ nl.

Definition functionalGuard : string :=
  "if (__vue__options__.functional) {console.error(" +:+ dq +:+
  "[vueify] functional components are not supported and " +:+
  "should be defined in plain js files using render functions." +:+
  dq +:+ ")}" +:+ nl.

Definition renderAttachment (template : value) : string :=
  "__vue__options__.render = " +:+ to_str (get_prop template "render") +:+ nl +:+
  "__vue__options__.staticRenderFns = " +:+
  to_str (get_prop template "staticRenderFns") +:+ nl.

Definition scopeIdLine (id : string) : string :=
  "__vue__options__._scopeId = " +:+ dq +:+ id +:+ dq +:+ nl.

Definition reloadCall (id : string) : string :=
  "    hotAPI.reload(" +:+ dq +:+ id +:+ dq +:+ ", __vue__options__)" +:+ nl.

Definition rerenderCall (id : string) : string :=
  "    hotAPI.rerender(" +:+ dq +:+ id +:+ dq +:+ ", __vue__options__)" +:+ nl.

(** The update of a module that is loaded again. *)
Definition updateAction (scriptChanged templateChanged : bool) (id : string)
    : string :=
  if scriptChanged then reloadCall id
  else if templateChanged then rerenderCall id
  else EmptyString.

(** The hot-reload block up to the update, and after it. *)
Definition hotReloadHead (disposeStyle : bool) (id : string) : string :=
  "if (module.hot) {(function () {" +:+
  "  var hotAPI = require(" +:+ dq +:+ hotReloadAPIPath E +:+ dq +:+ ")" +:+ nl +:+
  "  hotAPI.install(require(" +:+ dq +:+ "vue" +:+ dq +:+ "), true)" +:+ nl +:+
  "  if (!hotAPI.compatible) return" +:+ nl +:+
  "  module.hot.accept()" +:+ nl +:+
  (if disposeStyle
   then "  module.hot.dispose(__vueify_style_dispose__)" +:+ nl
   else EmptyString) +:+
  "  if (!module.hot.data) {" +:+ nl +:+
  "    hotAPI.createRecord(" +:+ dq +:+ id +:+ dq +:+ ", __vue__options__)" +:+ nl +:+
  "  } else {" +:+ nl.

Definition hotReloadTail : string :=
  "  }" +:+ nl +:+
  "})()}".

Definition hotReloadBlock (disposeStyle scriptChanged templateChanged : bool)
    (id : string) : string :=
  hotReloadHead disposeStyle id +:+
  updateAction scriptChanged templateChanged id +:+
  hotReloadTail.

(** The gate of the hot-reload block. *)
Definition hotReload (env : Env) : bool :=
  negb (isProduction env) && negb (isTest env) && negb (isServer env).

(** ** The merge

    [mergeParts] runs its steps in the order of the source; each step is a
    definition of its own here, named after the comment that heads it. *)

(** [// styles]: the style notification and the injection call. Returns the
    [style] variable, which the injection overwrites with its JSON text, and
    the output so far. *)
Definition mergeStyles (env : Env) (opts : Options) (filePath : string)
    (style output : string) : State (string * string) :=
  if truthy (VString style) && negb (isServer env) then
    _ ← log (Emit_style filePath style);
    if negb (extractCSS opts) then
      let style := JSON_stringify E style in
      mret (style, output +:+ styleInjection style)
    else mret (style, output)
  else mret (style, output).

(** [// script]: the source map, when asked for, then the wrapped script. *)
Definition mergeScript (opts : Options) (filePath content : string)
    (resolvedParts : resolvedParts) (output : string)
    : throwable (option generator * string) :=
  let script := res_script resolvedParts in
  if truthy script then
    map ← (if sourceMap opts
           then Some <$> generateSourceMap filePath content resolvedParts
                           script output
           else Ret None);
    Ret (map, output +:+ scriptBlock (to_str script))
  else Ret (None, output).

(** [// template]: the guard, the render functions and their mappings. *)
Definition mergeTemplate (env : Env) (content : string) (parts : descriptor)
    (resolvedParts : resolvedParts) (map : option generator) (output : string)
    : throwable (option generator * string) :=
  let template := res_template resolvedParts in
  if truthy template then
    let output :=
      if negb (isProduction env) && negb (isServer env)
      then output +:+ functionalGuard else output in
    let beforeLines := length (split_lines output) in
    let output := output +:+ renderAttachment template in
    map ← match map with
          | Some map =>
              Some <$> addTemplateMapping content parts output map beforeLines
          | None => Ret None
          end;
    Ret (map, output)
  else Ret (map, output).

(** [// scoped CSS id], [// hot reload] and the map comment. *)
Definition mergeTail (env : Env) (opts : Options) (id style : string)
    (hasScopedStyle scriptChanged templateChanged : bool)
    (map : option generator) (output : string) : string :=
  let output :=
    if hasScopedStyle then output +:+ scopeIdLine id else output in
  let output :=
    if hotReload env
    then output +:+
         hotReloadBlock (truthy (VString style) && negb (extractCSS opts))
           scriptChanged templateChanged id
    else output in
  match map with
  | Some map => output +:+ nl +:+ toComment E map
  | None => output
  end.

(** [(resolvedPartsCache[id] || {}).field]. *)
Definition cached (w : World) (id : string) (field : resolvedParts → value)
    : value :=
  from_option field VUndefined (resolvedPartsCache w !! id).

Definition mergeParts (env : Env) (opts : Options) (content filePath id : string)
    (parts : descriptor) (hasScopedStyle : bool) (resolvedParts : resolvedParts)
    : State (throwable string) :=
  prev ← cache_get id;
  _ ← cache_set id resolvedParts;
  let scriptChanged :=
    strict_ne (res_script resolvedParts)
              (from_option res_script VUndefined prev) in
  let templateChanged :=
    strict_ne (res_template resolvedParts)
              (from_option res_template VUndefined prev) in
  let output := EmptyString in
  let style := join nl (res_styles resolvedParts) in
  '(style, output) ← mergeStyles env opts filePath style output;
  mret (
    '(map, output) ← mergeScript opts filePath content resolvedParts output;
    let output := output +:+ optionsBinding in
    '(map, output) ← mergeTemplate env content parts resolvedParts map output;
    Ret (mergeTail env opts id style hasScopedStyle scriptChanged
           templateChanged map output)).

(** ** The join and [compile] *)

(** The [then] callback of a processor, by its kind. *)
Definition thenPart (opts : Options) (id : string) (k : kind) (res : value)
    (parts : resolvedParts) : State (throwable resolvedParts) :=
  match k with
  | Template => thenTemplate res parts
  | Script => thenScript res parts
  | Style part => thenStyle opts id part res parts
  end.

(** The settlement of one started processor on the accumulator: what the
    transform emits and its callback, then the [then] callback of the
    processor. A promise that never settles has no settlement. *)
Definition settle (opts : Options) (id : string) (t : pending)
    (parts : resolvedParts) : State (throwable resolvedParts) :=
  match p_promise t with
  | None => mret (Ret parts)
  | Some Silent => mret (Ret parts)
  | Some (Thrown err) => mret (Throw err)
  | Some (Reported emitted r) =>
      _ ← logAll (Emit_dependency <$> emitted);
      r ← compileCallback r;
      match r with
      | Throw err => mret (Throw err)
      | Ret res => thenPart opts id (p_kind t) res parts
      end
  end.

(** [Promise.all]: the processors settle in the order [order] gives their
    indices, each when its transform calls back; the first rejection is kept,
    the later settlements still run. *)
Fixpoint settleAll (opts : Options) (id : string) (tasks : list pending)
    (order : list nat) (parts : resolvedParts) (rejected : option error)
    : State (resolvedParts * option error) :=
  match order with
  | [] => mret (parts, rejected)
  | i :: order' =>
      match tasks !! i with
      | None => settleAll opts id tasks order' parts rejected
      | Some t =>
          r ← settle opts id t parts;
          match r with
          | Ret parts' => settleAll opts id tasks order' parts' rejected
          | Throw err =>
              settleAll opts id tasks order' parts
                (match rejected with Some _ => rejected | None => Some err end)
          end
      end
  end.

(** Every promise of the array settles under [order]: the [Promise.resolve()]
    of an absent part has, one whose callee is silent never does, the others
    do when [order] has their index. *)
Definition allSettle (tasks : list pending) (order : list nat) : bool :=
  forallb (λ i,
             match tasks !! i with
             | Some {| p_promise := Some Silent |} => false
             | Some {| p_promise := Some _ |} => bool_decide (i ∈ order)
             | _ => true
             end)
          (seq 0 (length tasks)).

(** The error a promise of [compileAsPromise] is rejected with, when its
    callee reports one or throws one. *)
Definition rejection {A} (p : promise A) : option error :=
  match p with
  | Reported _ (Throw err) | Thrown err => Some err
  | _ => None
  end.

(** What the caller of [compile] observes. *)
Inductive outcome :=
| CbOutput (output : string)
| CbError (err : error)
| Uncaught (err : error)
| Pending.

(** Modelled from the spec: [lib/gen-id] is not among the sources. The
    ScopeId is a short fingerprint derived deterministically from the file
    path: the text [genId] makes of the path, after the prefix [compile]
    gives it. *)
Definition scopeId (filePath : string) : string :=
  "data-v-" +:+ genId E filePath.

(** The array [compile] hands to [Promise.all]: the three kinds of processor,
    started in this order. *)
Definition startParts (parts : descriptor) (filePath : string)
    : State (list pending) :=
  t ← processTemplate (parts_template parts) filePath;
  s ← processScript (parts_script parts) filePath;
  ss ← mapM (λ style, processStyle style filePath) (parts_styles parts);
  mret (t :: s :: ss).

(** The accumulator a run starts from. *)
Definition emptyParts : resolvedParts :=
  {| res_template := VNull; res_script := VNull;
     res_map := None; res_styles := [] |}.

Definition compile (env : Env) (opts : Options) (content filePath : string)
    (order : list nat) : State outcome :=
  let id := scopeId filePath in
  match parseComponent E content with
  | Throw err => mret (Uncaught err)
  | Ret parts =>
      let hasScopedStyle := existsb part_scoped (parts_styles parts) in
      let resolvedParts := emptyParts in
      tasks ← startParts parts filePath;
      '(resolvedParts, rejected) ← settleAll opts id tasks order resolvedParts None;
      match rejected with
      | Some err => mret (CbError err)
      | None =>
          if allSettle tasks order then
            r ← mergeParts env opts content filePath id parts hasScopedStyle
                  resolvedParts;
            match r with
            | Ret output => mret (CbOutput output)
            | Throw err => mret (CbError err)
            end
          else mret Pending
      end
  end.

End Compiler.

(** ** A concrete instance

    Small collaborators to run the model on: a parser that knows a handful of
    documents, a registry with a [babel] entry, a translator that wraps the
    template text. *)
Module Demo.

Definition block_of (lang src : option string) (content : string)
    (scoped : bool) (start : nat) : block :=
  {| part_lang := lang; part_src := src; part_content := content;
     part_scoped := scoped; part_start := start |}.

Definition doc_script : string := "<script>module.exports = {}</script>".
Definition doc_script2 : string := "<script>module.exports = {a: 1}</script>".
Definition doc_template : string := "<template><p>hi</p></template>".
Definition doc_style_src : string :=
  "<style src=" +:+ dq +:+ "./missing.css" +:+ dq +:+ "></style>".
Definition doc_scoped : string :=
  "<style scoped>p { color: red }</style>" +:+ nl +:+
  "<script>module.exports = {}</script>".
Definition doc_less : string :=
  "<style lang=" +:+ dq +:+ "less" +:+ dq +:+ ">p { color: red }</style>".
Definition doc_two_lines : string :=
  "<script>" +:+ nl +:+ "var a = 1" +:+ nl +:+ "module.exports = {}</script>".
Definition doc_constructor : string :=
  "<style lang=" +:+ dq +:+ "constructor" +:+ dq +:+ ">p { color: red }</style>".
Definition doc_stylus : string :=
  "<style lang=" +:+ dq +:+ "stylus" +:+ dq +:+ " src=" +:+ dq +:+ "./a.styl" +:+
  dq +:+ "></style><style>p { color: red }</style>".

Definition script_only (content : string) : descriptor :=
  {| parts_template := None;
     parts_script := Some (block_of None None content false 8);
     parts_styles := [] |}.

Definition documents : list (string * descriptor) :=
  [ (doc_script, script_only "module.exports = {}");
    (doc_script2, script_only "module.exports = {a: 1}");
    (doc_template,
     {| parts_template := Some (block_of None None "<p>hi</p>" false 10);
        parts_script := None;
        parts_styles := [] |});
    (doc_style_src,
     {| parts_template := None;
        parts_script := None;
        parts_styles := [block_of None (Some "./missing.css") EmptyString false 27] |});
    (doc_scoped,
     {| parts_template := None;
        parts_script := Some (block_of None None ("//" +:+ nl +:+ "module.exports = {}") false 47);
        parts_styles := [block_of None None "p { color: red }" true 14] |});
    (doc_less,
     {| parts_template := None;
        parts_script := None;
        parts_styles := [block_of (Some "less") None "p { color: red }" false 19] |});
    (doc_two_lines,
     script_only (nl +:+ "var a = 1" +:+ nl +:+ "module.exports = {}"));
    (doc_constructor,
     {| parts_template := None;
        parts_script := None;
        parts_styles :=
          [block_of (Some "constructor") None "p { color: red }" false 26] |});
    (doc_stylus,
     {| parts_template := None;
        parts_script := None;
        parts_styles :=
          [block_of (Some "stylus") (Some "./a.styl") EmptyString false 36;
           block_of None None "p { color: red }" false 51] |}) ].

Definition parse (content : string) : throwable descriptor :=
  match list_find (λ d, bool_decide (d.1 = content)) documents with
  | Some (_, (_, d)) => Ret d
  | None => Ret {| parts_template := None; parts_script := None; parts_styles := [] |}
  end.

(** A transform that keeps the code and maps its first line to itself. *)
Definition babel : transform :=
  λ source _,
    match source with
    | VString s => Reported [] (Ret (VObject 0 (CodeMap s (Some {[ 1 := 1 ]}))))
    | _ => Reported [] (Throw (Failure "unexpected source" VUndefined))
    end.

(** A transform that reports an error. *)
Definition broken : transform :=
  λ _ _, Reported [] (Throw (Failure "SyntaxError" (VString "> 1 | ..."))).

(** A transform that reports one file it read and keeps the text. *)
Definition importing : transform :=
  λ source _, Reported ["/app/vars.styl"] (Ret source).

Definition ext (registry : gmap string transform) (withBabel : bool) : Externals :=
  {| genId := λ file, if bool_decide (file = "/app/a.vue") then "7ba5bd90" else "2d0a0f1c";
     parseComponent := parse;
     compilers := registry;
     hasBabel := withBabel;
     rewriteStyle := λ id css scoped opts, Ret css;
     translate := λ res, Ret ("function(){/*" +:+ to_str res +:+ "*/}", "[]");
     insertCSSPath := "vueify/lib/insert-css";
     hotReloadAPIPath := "vue-hot-reload-api";
     path_dirname := λ file, "/app";
     path_resolve := λ dir src, dir +:+ "/" +:+ src;
     path_basename := λ file, "a.vue";
     hash := λ s, "0c1f0d7a";
     JSON_stringify := λ s, dq +:+ s +:+ dq;
     toComment := λ map, "//# sourceMappingURL=data:application/json;base64,e30=" |}.

(** No registry entry and no babel; a [babel] entry; a broken [less]; a
    [stylus] that reports a file. *)
Definition plain : Externals := ext ∅ false.
Definition withBabel : Externals := ext {[ "babel" := babel ]} true.
Definition withLess : Externals := ext {[ "less" := broken ]} false.
Definition withStylus : Externals := ext {[ "stylus" := importing ]} false.

Definition world0 : World :=
  {| w_fs := ∅; resolvedPartsCache := ∅; w_nextRef := 1; w_trace := [] |}.

Definition development : Env :=
  {| isProduction := false; isServer := false; isTest := false |}.
Definition production : Env :=
  {| isProduction := true; isServer := false; isTest := false |}.
Definition testing : Env :=
  {| isProduction := false; isServer := false; isTest := true |}.

Definition noMap : Options := {| sourceMap := false; extractCSS := false |}.
Definition withMap : Options := {| sourceMap := true; extractCSS := false |}.

Definition file : string := "/app/a.vue".

End Demo.

(** * Properties *)

(** ** Strings and lines *)

Lemma app_cons_s (x : ascii) (a b : string) :
  String x a +:+ b = String x (a +:+ b).
Proof. reflexivity. Qed.

Lemma app_assoc_s (a b c : string) : (a +:+ b) +:+ c = a +:+ (b +:+ c).
Proof. induction a as [|x a IH]; [done|]. by rewrite !app_cons_s, IH. Qed.

Lemma app_nil_r_s (a : string) : a +:+ EmptyString = a.
Proof. induction a as [|x a IH]; [done|]. by rewrite app_cons_s, IH. Qed.

Lemma count_lf_app (a b : string) : count_lf (a +:+ b) = count_lf a + count_lf b.
Proof.
  induction a as [|x a IH]; [done|].
  rewrite app_cons_s. cbn [count_lf]. rewrite IH. lia.
Qed.

(** [split] yields one piece more than the text has line feeds. *)
Lemma length_split_from (s : string) :
  ∀ cur, length (split_from cur s) = S (count_lf s).
Proof.
  remember (String.length s) as n eqn:Hn.
  revert s Hn. induction (lt_wf n) as [n _ IH]. intros s -> cur.
  destruct s as [|c s']; [done|]. cbn [split_from count_lf].
  destruct (Ascii.eqb c LF) eqn:Hc.
  - cbn. f_equal. eapply IH; [|done]. cbn. lia.
  - destruct s' as [|c' s''].
    + done.
    + destruct (Ascii.eqb c CR && Ascii.eqb c' LF) eqn:Hcr.
      * apply andb_true_iff in Hcr as [_ Hc'].
        cbn. rewrite Hc'. f_equal. eapply IH; [|done]. cbn. lia.
      * apply (IH (String.length (String c' s''))); [cbn; lia|done].
Qed.

Lemma length_split_lines (s : string) :
  length (split_lines s) = S (count_lf s).
Proof. apply length_split_from. Qed.

(** ** What the part processors leave alone *)

Definition noStyle (e : event) : Prop :=
  match e with
  | Emit_style _ _ => False
  | _ => True
  end.

(** [w'] is [w] after steps that read files, make objects and write to the
    trace, and that neither touch the cache nor emit a style. *)
Record quiet (w w' : World) : Prop := {
  quiet_fs : w_fs w' = w_fs w;
  quiet_cache : resolvedPartsCache w' = resolvedPartsCache w;
  quiet_ref : w_nextRef w ≤ w_nextRef w';
  quiet_trace : ∃ evs, w_trace w' = w_trace w ++ evs ∧ Forall noStyle evs
}.

Lemma quiet_refl w : quiet w w.
Proof.
  split; try done. exists []. by rewrite app_nil_r.
Qed.

Lemma quiet_trans w1 w2 w3 : quiet w1 w2 → quiet w2 w3 → quiet w1 w3.
Proof.
  intros [F1 C1 R1 (e1 & T1 & N1)] [F2 C2 R2 (e2 & T2 & N2)].
  split; [congruence | congruence | lia |].
  exists (e1 ++ e2). split; [|by apply Forall_app].
  by rewrite T2, T1, <- app_assoc.
Qed.

(** A computation every run of which is quiet. *)
Definition Quiet {A} (m : State A) : Prop := ∀ w, quiet w (m w).2.

Lemma Quiet_ret {A} (a : A) : Quiet (mret a).
Proof. intros w. apply quiet_refl. Qed.

Lemma Quiet_bind {A B} (m : State A) (f : A → State B) :
  Quiet m → (∀ a, Quiet (f a)) → Quiet (m ≫= f).
Proof.
  intros Hm Hf w. unfold mbind, state_bind.
  destruct (m w) as [a w1] eqn:Em.
  eapply quiet_trans; [|apply Hf]. specialize (Hm w). by rewrite Em in Hm.
Qed.

Lemma Quiet_log e : noStyle e → Quiet (log e).
Proof.
  intros He w. split; cbn; try done. exists [e]. split; [done|]. by constructor.
Qed.

Lemma Quiet_logAll evs : Forall noStyle evs → Quiet (logAll evs).
Proof. intros He w. split; cbn; try done. by exists evs. Qed.

Lemma Quiet_alloc : Quiet alloc.
Proof.
  intros w. split; cbn; try done; [lia|]. exists []. by rewrite app_nil_r.
Qed.

Lemma Quiet_fs_lookup path : Quiet (fs_lookup path).
Proof. intros w. apply quiet_refl. Qed.

Create HintDb quiet.
#[local] Hint Resolve Quiet_ret Quiet_alloc Quiet_fs_lookup : quiet.
#[local] Hint Extern 1 (Quiet (_ ≫= _)) => apply Quiet_bind; [|intros] : quiet.
#[local] Hint Extern 1 (Quiet (log _)) => apply Quiet_log; exact I : quiet.
#[local] Hint Extern 2 (Quiet (match ?x with _ => _ end)) => destruct x : quiet.

Section Frame.

Context (E : Externals).

Lemma Quiet_readFileSync path : Quiet (readFileSync path).
Proof. unfold readFileSync. auto with quiet. Qed.

Lemma Quiet_loadSrc src filePath : Quiet (loadSrc E src filePath).
Proof.
  unfold loadSrc. apply Quiet_bind; [auto with quiet|intros _].
  apply Quiet_bind; [apply Quiet_readFileSync|intros [text|]]; auto with quiet.
Qed.

Lemma Quiet_getContent part filePath : Quiet (getContent E part filePath).
Proof.
  unfold getContent. destruct (truthy _); [apply Quiet_loadSrc|auto with quiet].
Qed.

Lemma Quiet_compileAsPromise type source lang filePath :
  Quiet (compileAsPromise E type source lang filePath).
Proof.
  unfold compileAsPromise.
  destruct (compilers E !! to_str lang) as [c|]; [auto with quiet|].
  destruct (objectPrototype (to_str lang)); auto with quiet.
Qed.

Lemma Quiet_compileCallback r : Quiet (compileCallback r).
Proof.
  unfold compileCallback. destruct r as [res|[msg|msg cf]]; auto with quiet.
Qed.

Lemma Quiet_compileTemplate res : Quiet (compileTemplate E res).
Proof.
  unfold compileTemplate. destruct (translate E res) as [[r s]|e]; auto with quiet.
Qed.

#[local] Hint Resolve Quiet_getContent Quiet_compileAsPromise
  Quiet_compileTemplate : quiet.

Lemma Quiet_processTemplate part filePath : Quiet (processTemplate E part filePath).
Proof. unfold processTemplate. destruct part; auto with quiet. Qed.

Lemma Quiet_processScript part filePath : Quiet (processScript E part filePath).
Proof. unfold processScript. destruct part; auto with quiet. Qed.

Lemma Quiet_processStyle part filePath : Quiet (processStyle E part filePath).
Proof. unfold processStyle. auto with quiet. Qed.

Lemma Quiet_mapM {A B} (f : A → State B) (l : list A) :
  (∀ a, Quiet (f a)) → Quiet (mapM f l).
Proof.
  intros Hf. induction l as [|a l IH]; cbn; auto with quiet.
Qed.

Lemma Quiet_startParts parts filePath : Quiet (startParts E parts filePath).
Proof.
  unfold startParts.
  apply Quiet_bind; [apply Quiet_processTemplate|intros t].
  apply Quiet_bind; [apply Quiet_processScript|intros s].
  apply Quiet_bind; [|auto with quiet].
  apply Quiet_mapM. intros a. apply Quiet_processStyle.
Qed.

Lemma Quiet_thenPart opts id k res parts : Quiet (thenPart E opts id k res parts).
Proof.
  destruct k as [| |part]; cbn [thenPart].
  - unfold thenTemplate. apply Quiet_bind; [auto with quiet|].
    intros [v|e]; auto with quiet.
  - unfold thenScript. destruct res as [| | |ref [code map|r s]]; auto with quiet.
  - unfold thenStyle. destruct res as [| |s|ref o]; auto with quiet.
Qed.

Lemma Quiet_settle opts id t parts : Quiet (settle E opts id t parts).
Proof.
  unfold settle. destruct (p_promise t) as [[emitted r|err|]|]; auto with quiet.
  apply Quiet_bind.
  { apply Quiet_logAll, Forall_fmap, Forall_forall. by intros f _. }
  intros _. apply Quiet_bind; [apply Quiet_compileCallback|].
  intros [res|err]; [apply Quiet_thenPart|auto with quiet].
Qed.

Lemma Quiet_settleAll opts id tasks order :
  ∀ parts rejected, Quiet (settleAll E opts id tasks order parts rejected).
Proof.
  induction order as [|i order IH]; intros parts rejected; cbn; [auto with quiet|].
  destruct (tasks !! i) as [t|]; [|apply IH].
  apply Quiet_bind; [apply Quiet_settle|]. intros [parts'|err]; apply IH.
Qed.

(** The world once a transform has emitted [emitted] and called back with
    [r]: the notifications, then the code frame of an error that has one. *)
Definition calledBack (emitted : list string) (r : throwable value) (w : World)
    : World :=
  (compileCallback r (logAll (Emit_dependency <$> emitted) w).2).2.

Definition codeFrameOf (r : throwable value) : list event :=
  match r with
  | Throw (Failure _ codeFrame) =>
      if truthy codeFrame then [Console_error (to_str codeFrame)] else []
  | _ => []
  end.

Lemma calledBack_world emitted r w :
  calledBack emitted r w =
  {| w_fs := w_fs w; resolvedPartsCache := resolvedPartsCache w;
     w_nextRef := w_nextRef w;
     w_trace := w_trace w ++ (Emit_dependency <$> emitted) ++ codeFrameOf r |}.
Proof.
  unfold calledBack, compileCallback, logAll. cbn [snd].
  destruct r as [res|[msg|msg cf]]; cbn; rewrite ?app_nil_r; try done.
  unfold mbind, state_bind. destruct (truthy cf); cbn.
  - by rewrite <- app_assoc.
  - by rewrite app_nil_r.
Qed.

Lemma settle_reported opts id t parts w emitted r :
  p_promise t = Some (Reported emitted r) →
  settle E opts id t parts w =
  match r with
  | Ret res => thenPart E opts id (p_kind t) res parts (calledBack emitted r w)
  | Throw err => (Throw err, calledBack emitted r w)
  end.
Proof.
  intros H. unfold settle, calledBack. rewrite H.
  unfold mbind at 1 2, state_bind.
  destruct (logAll _ w) as [[] w1]. cbn [snd].
  destruct r as [res|[msg|msg cf]]; [done..|]. unfold compileCallback.
  unfold mbind, state_bind. by destruct (truthy cf).
Qed.

Lemma settle_idle opts id t parts w :
  p_promise t = None ∨ p_promise t = Some Silent →
  settle E opts id t parts w = (Ret parts, w).
Proof. intros [H|H]; unfold settle; by rewrite H. Qed.

End Frame.

(** ** The merge *)

Section Merge.

Context (E : Externals).

Lemma mergeTail_shape env opts id style hs sc tc map output :
  ∃ post,
    mergeTail E env opts id style hs sc tc map output =
    output +:+ (if hs then scopeIdLine id else EmptyString) +:+
    (if hotReload env
     then hotReloadBlock E (truthy (VString style) && negb (extractCSS opts))
            sc tc id
     else EmptyString) +:+ post.
Proof.
  unfold mergeTail.
  exists (match map with Some m => nl +:+ toComment E m | None => EmptyString end).
  destruct hs, (hotReload env), map; cbn [String.append];
    rewrite ?app_assoc_s, ?app_nil_r_s; reflexivity.
Qed.

Lemma mergeStyles_cache env opts filePath style output w :
  resolvedPartsCache (mergeStyles E env opts filePath style output w).2 =
  resolvedPartsCache w.
Proof.
  unfold mergeStyles.
  destruct (truthy (VString style) && negb (isServer env)); [|done].
  destruct (negb (extractCSS opts)); done.
Qed.

(** [mergeParts], one step at a time. *)
Lemma mergeParts_unfold env opts content filePath id parts hs rp w :
  mergeParts E env opts content filePath id parts hs rp w =
  let w1 := (cache_set id rp w).2 in
  let '((style, output), w2) :=
    mergeStyles E env opts filePath (join nl (res_styles rp)) EmptyString w1 in
  ('(map, output) ← mergeScript E opts filePath content rp output;
   '(map, output) ← mergeTemplate env content parts rp map
                      (output +:+ optionsBinding);
   Ret (mergeTail E env opts id style hs
          (strict_ne (res_script rp) (cached w id res_script))
          (strict_ne (res_template rp) (cached w id res_template))
          map output),
   w2).
Proof.
  unfold mergeParts, mbind at 1 2 3, state_bind, cache_get, cached.
  cbn [fst snd cache_set].
  destruct (mergeStyles _ _ _ _ _ _ _) as [[style output] w2]. reflexivity.
Qed.

(** Whatever the merge returns, it has replaced the cache entry of the file
    by the parts of this run. *)
Lemma mergeParts_cache env opts content filePath id parts hs rp w :
  resolvedPartsCache
    (mergeParts E env opts content filePath id parts hs rp w).2 =
  <[id := rp]> (resolvedPartsCache w).
Proof.
  rewrite mergeParts_unfold. cbn zeta.
  pose proof (mergeStyles_cache env opts filePath (join nl (res_styles rp))
                EmptyString (cache_set id rp w).2) as H.
  destruct (mergeStyles _ _ _ _ _ _ _) as [[style output] w2]. cbn in *.
  by rewrite H.
Qed.

(** The output of a merge that returns one ends in [mergeTail], with the
    changes read off the cache the merge started from. *)
Lemma mergeParts_tail env opts content filePath id parts hs rp w out w' :
  mergeParts E env opts content filePath id parts hs rp w = (Ret out, w') →
  ∃ style map output,
    out = mergeTail E env opts id style hs
            (strict_ne (res_script rp) (cached w id res_script))
            (strict_ne (res_template rp) (cached w id res_template))
            map output.
Proof.
  rewrite mergeParts_unfold. cbn zeta.
  destruct (mergeStyles _ _ _ _ _ _ _) as [[style output] w2].
  destruct (mergeScript _ _ _ _ _ _) as [[map output1]|e]; [|done].
  cbn [mbind throwable_bind].
  destruct (mergeTemplate _ _ _ _ _ _) as [[map2 output2]|e]; [|done].
  cbn [mbind throwable_bind]. intros [= <- _]. eauto.
Qed.

End Merge.

(** ** [compile], one phase at a time *)

Section Compile.

Context (E : Externals).

Lemma compile_unfold env opts content filePath order w parts :
  parseComponent E content = Ret parts →
  compile E env opts content filePath order w =
  let '(tasks, w1) := startParts E parts filePath w in
  let '((rp, rejected), w2) :=
    settleAll E opts (scopeId E filePath) tasks order emptyParts None w1 in
  match rejected with
  | Some err => (CbError err, w2)
  | None =>
      if allSettle tasks order then
        let '(r, w3) :=
          mergeParts E env opts content filePath (scopeId E filePath) parts
            (existsb part_scoped (parts_styles parts)) rp w2 in
        (match r with Ret output => CbOutput output | Throw err => CbError err end,
         w3)
      else (Pending, w2)
  end.
Proof.
  intros Hp. unfold compile. rewrite Hp.
  unfold mbind at 1 2, state_bind.
  destruct (startParts E parts filePath w) as [tasks w1].
  destruct (settleAll _ _ _ _ _ _ _ _) as [[rp rejected] w2].
  destruct rejected as [err|]; [done|].
  destruct (allSettle tasks order); [|done].
  unfold mbind, state_bind.
  destruct (mergeParts _ _ _ _ _ _ _ _ _ _) as [[out|err] w3]; done.
Qed.

(** An output comes from a merge, run on a world that differs from the
    initial one by the quiet steps of the part processors. *)
Lemma compile_output_inv env opts content filePath order w out w' :
  compile E env opts content filePath order w = (CbOutput out, w') →
  ∃ parts rp w2,
    parseComponent E content = Ret parts ∧
    quiet w w2 ∧
    mergeParts E env opts content filePath (scopeId E filePath) parts
      (existsb part_scoped (parts_styles parts)) rp w2 = (Ret out, w').
Proof.
  destruct (parseComponent E content) as [parts|err] eqn:Hp.
  2:{ unfold compile. rewrite Hp. discriminate. }
  rewrite (compile_unfold _ _ _ _ _ _ _ Hp).
  pose proof (Quiet_startParts E parts filePath w) as Q1.
  destruct (startParts E parts filePath w) as [tasks w1].
  pose proof (Quiet_settleAll E opts (scopeId E filePath) tasks order
                emptyParts None w1) as Q2.
  destruct (settleAll _ _ _ _ _ _ _ _) as [[rp rejected] w2].
  destruct rejected as [err|]; [discriminate|].
  destruct (allSettle tasks order); [|discriminate].
  destruct (mergeParts _ _ _ _ _ _ _ _ _ _) as [[o|err] w3] eqn:Hm;
    [|discriminate].
  intros [= -> ->]. exists parts, rp, w2. split; [done|]. split; [|done].
  eapply quiet_trans; [apply Q1|apply Q2].
Qed.

End Compile.

(** * The claims *)

Section Claims.

Context (E : Externals).

(** ** The registry *)

Lemma compileAsPromise_registered type source lang filePath w compile :
  compilers E !! to_str lang = Some compile →
  (compileAsPromise E type source lang filePath w).1 = compile source filePath.
Proof. intros H. unfold compileAsPromise. by rewrite H. Qed.

(** A tag that names no property of the registry, neither its own nor one of
    [Object.prototype]: the promise is [Promise.resolve(source)]. *)
Lemma compileAsPromise_absent type source lang filePath w :
  compilers E !! to_str lang = None →
  objectPrototype (to_str lang) = None →
  compileAsPromise E type source lang filePath w = (Reported [] (Ret source), w).
Proof. intros H1 H2. unfold compileAsPromise. by rewrite H1, H2. Qed.

(** C10. A script part that carries no language tag is looked up under
    [babel] when babel is available: its promise is what the [babel] entry of
    the registry reports for the content, not the content itself. Without
    babel the tag is [null], and the content is passed through unchanged
    (no registry entry has that name). *)
Theorem untagged_script_uses_babel part filePath w :
  truthy (attr (part_lang part)) = false →
  (hasBabel E = true →
     scriptLang E part = VString "babel" ∧
     ∀ compile, compilers E !! "babel" = Some compile →
       p_promise (processScript E (Some part) filePath w).1 =
       Some (compile (getContent E part filePath w).1 filePath)) ∧
  (hasBabel E = false →
     scriptLang E part = VNull ∧
     (compilers E !! "null" = None →
        p_promise (processScript E (Some part) filePath w).1 =
        Some (Reported [] (Ret (getContent E part filePath w).1)))).
Proof.
  intros Hl. unfold processScript. cbn zeta. unfold scriptLang. rewrite Hl.
  split; intros Hb; rewrite Hb; (split; [done|]).
  - intros compile Hc. unfold mbind, state_bind.
    destruct (getContent E part filePath w) as [script w1]. cbn [fst].
    pose proof (compileAsPromise_registered "script" script (VString "babel")
                  filePath w1 compile Hc) as H.
    destruct (compileAsPromise _ _ _ _ _ _) as [p w2]. cbn in *. by rewrite H.
  - intros Hn. unfold mbind, state_bind.
    destruct (getContent E part filePath w) as [script w1]. cbn [fst].
    by rewrite (compileAsPromise_absent "script" script VNull filePath w1 Hn
                  eq_refl).
Qed.

(** ** The source map of a script without an incoming map *)

Lemma generateSourceMap_no_inMap filePath content rp script output :
  res_map rp = None →
  ∃ msg, generateSourceMap E filePath content rp script output =
         Throw (TypeError msg).
Proof.
  intros H. unfold generateSourceMap. rewrite H.
  destruct script; eauto.
Qed.

(** C4 (the code does otherwise). With source maps on and a script whose
    transform supplied no incoming map, the builder does not complete: after
    the mappings it calls [destroy] on the consumer it never made, and the
    merge ends with that [TypeError] in place of an output. *)
Theorem sourceMap_without_incoming_map_throws env opts content filePath id
    parts hs rp w :
  sourceMap opts = true →
  truthy (res_script rp) = true →
  res_map rp = None →
  ∃ msg,
    (mergeParts E env opts content filePath id parts hs rp w).1 =
    Throw (TypeError msg).
Proof.
  intros Hs Ht Hm. rewrite mergeParts_unfold. cbn zeta.
  destruct (mergeStyles _ _ _ _ _ _ _) as [[style output] w2]. cbn [fst].
  unfold mergeScript. rewrite Ht, Hs.
  destruct (generateSourceMap_no_inMap filePath content rp (res_script rp)
              output Hm) as [msg ->].
  by exists msg.
Qed.

End Claims.

(** ** The join *)

Section Join.

Context (E : Externals) (opts : Options) (id : string) (tasks : list pending).

Lemma settle_rejected t parts w p err :
  p_promise t = Some p →
  rejection p = Some err →
  (settle E opts id t parts w).1 = Throw err.
Proof.
  intros H Hr. unfold settle. rewrite H.
  destruct p as [emitted [res|e]|e|]; try discriminate; injection Hr as ->;
    [|done].
  unfold mbind, state_bind, logAll, compileCallback. cbn.
  destruct err as [msg|msg cf]; [done|].
  unfold mbind, state_bind. by destruct (truthy cf).
Qed.

(** Once a rejection is recorded it stays: later ones do not replace it. *)
Lemma settleAll_keeps order :
  ∀ parts e w, (settleAll E opts id tasks order parts (Some e) w).1.2 = Some e.
Proof.
  induction order as [|i order IH]; intros parts e w; cbn; [done|].
  destruct (tasks !! i) as [t|]; [|apply IH].
  unfold mbind, state_bind.
  destruct (settle E opts id t parts w) as [[parts'|err] w1]; apply IH.
Qed.

(** A rejected promise that settles makes the join reject. *)
Lemma settleAll_rejects order i t p err :
  tasks !! i = Some t →
  p_promise t = Some p →
  rejection p = Some err →
  i ∈ order →
  ∀ parts rejected w,
    is_Some (settleAll E opts id tasks order parts rejected w).1.2.
Proof.
  intros Ht Hp Hr. induction order as [|j order IH]; intros Hi parts rejected w.
  { by apply elem_of_nil in Hi. }
  cbn. destruct (decide (j = i)) as [->|Hne].
  - rewrite Ht. unfold mbind, state_bind.
    pose proof (settle_rejected t parts w p err Hp Hr) as Hs.
    destruct (settle E opts id t parts w) as [r w1]. cbn in Hs. subst r.
    destruct rejected as [e|]; rewrite settleAll_keeps; eauto.
  - apply elem_of_cons in Hi as [->|Hi]; [done|].
    destruct (tasks !! j) as [t'|]; [|by apply IH].
    unfold mbind, state_bind.
    destruct (settle E opts id t' parts w) as [[parts'|e] w1]; by apply IH.
Qed.

(** The first promise to reject, in the order of settlement, gives the join
    its error. *)
Lemma settleAll_first before i after t p err :
  tasks !! i = Some t →
  p_promise t = Some p →
  rejection p = Some err →
  (∀ j t', j ∈ before → tasks !! j = Some t' →
     ∀ parts w, ∃ parts', (settle E opts id t' parts w).1 = Ret parts') →
  ∀ parts w,
    (settleAll E opts id tasks (before ++ i :: after) parts None w).1.2 =
    Some err.
Proof.
  intros Ht Hp Hr. induction before as [|j before IH]; intros Hok parts w; cbn.
  - rewrite Ht. unfold mbind, state_bind.
    pose proof (settle_rejected t parts w p err Hp Hr) as Hs.
    destruct (settle E opts id t parts w) as [r w1]. cbn in Hs. subst r.
    apply settleAll_keeps.
  - assert (∀ j' t', j' ∈ before → tasks !! j' = Some t' →
              ∀ parts w, ∃ parts', (settle E opts id t' parts w).1 = Ret parts')
      as Hok' by (intros j' t' Hj; apply Hok; by right).
    destruct (tasks !! j) as [t'|] eqn:Hj; [|by apply IH].
    unfold mbind, state_bind.
    destruct (Hok j t' ltac:(by left) Hj parts w) as [parts' Hs].
    destruct (settle E opts id t' parts w) as [[parts''|e] w1]; [|done].
    by apply IH.
Qed.

(** Processors that have nothing to settle leave the join where it was. *)
Lemma settleAll_idle order :
  (∀ i t, tasks !! i = Some t →
          p_promise t = None ∨ p_promise t = Some Silent) →
  ∀ parts rejected w,
    settleAll E opts id tasks order parts rejected w = ((parts, rejected), w).
Proof.
  intros Hidle. induction order as [|i order IH]; intros parts rejected w;
    cbn [settleAll]; [done|].
  destruct (tasks !! i) as [t|] eqn:Hi; [|apply IH].
  unfold mbind, state_bind. rewrite settle_idle by eauto. apply IH.
Qed.

End Join.

Section Failure.

Context (E : Externals).

(** C8. When the registry transform of a part reports an error (or throws
    one) and the promise of that part settles, [compile] ends by passing an error to the
    callback and nothing else: the merge does not run (the world is the one
    the join left, the cache is as it was and no style was emitted), and no
    output is produced. The error passed on is that of the first promise to
    reject: the reported error itself when no part rejected before. *)
Theorem part_failure_aborts_merge env opts content filePath order w parts
    i t p err :
  parseComponent E content = Ret parts →
  (startParts E parts filePath w).1 !! i = Some t →
  p_promise t = Some p →
  rejection p = Some err →
  i ∈ order →
  let tasks := (startParts E parts filePath w).1 in
  let w1 := (startParts E parts filePath w).2 in
  let w2 :=
    (settleAll E opts (scopeId E filePath) tasks order emptyParts None w1).2 in
  (∃ first, compile E env opts content filePath order w = (CbError first, w2)) ∧
  resolvedPartsCache w2 = resolvedPartsCache w ∧
  (∀ file css, Emit_style file css ∈ w_trace w2 →
               Emit_style file css ∈ w_trace w) ∧
  (∀ before after,
     order = before ++ i :: after →
     (∀ j t', j ∈ before → tasks !! j = Some t' →
        ∀ parts w, ∃ parts',
          (settle E opts (scopeId E filePath) t' parts w).1 = Ret parts') →
     compile E env opts content filePath order w = (CbError err, w2)).
Proof.
  intros Hparse Ht Hp Hr Hi tasks w1 w2.
  assert (quiet w w2) as Hq.
  { eapply quiet_trans; [apply (Quiet_startParts E parts filePath w)|].
    apply Quiet_settleAll. }
  pose proof (settleAll_rejects E opts (scopeId E filePath) tasks order i t p
                err Ht Hp Hr Hi emptyParts None w1) as [first Hfirst].
  assert (compile E env opts content filePath order w = (CbError first, w2))
    as Hc.
  { rewrite (compile_unfold E env opts content filePath order w parts Hparse).
    subst tasks w1 w2. destruct (startParts E parts filePath w) as [ts w1'].
    cbn [fst snd] in *.
    destruct (settleAll _ _ _ _ _ _ _ _) as [[rp rejected] w2'].
    cbn [fst snd] in *. by rewrite Hfirst. }
  split; [eauto|]. split; [apply (quiet_cache _ _ Hq)|]. split.
  - intros file css Hin. destruct (quiet_trace _ _ Hq) as (evs & Hevs & Hns).
    rewrite Hevs in Hin. apply elem_of_app in Hin as [Hin|Hin]; [done|].
    rewrite Forall_forall in Hns. by apply Hns in Hin.
  - intros before after -> Hok. rewrite Hc. do 2 f_equal.
    pose proof (settleAll_first E opts (scopeId E filePath) tasks before i after
                  t p err Ht Hp Hr Hok emptyParts w1) as Hf.
    rewrite Hf in Hfirst. by injection Hfirst.
Qed.

End Failure.

(** ** A document that is a script and nothing else *)

Section ScriptOnly.

Context (E : Externals).

Lemma processScript_kind part filePath w :
  p_kind (processScript E part filePath w).1 = Script.
Proof.
  unfold processScript. destruct part as [part|]; [|done].
  unfold mbind, state_bind.
  destruct (getContent E part filePath w) as [script w1].
  by destruct (compileAsPromise _ _ _ _ _ _) as [p w2].
Qed.






End ScriptOnly.

(** ** The source map *)

Section SourceMap.

Context (E : Externals).

Lemma lineMapping_generated hashed consumer offset index m :
  lineMapping hashed consumer offset index = Some m →
  m_generated m = index + 1 + offset.
Proof.
  unfold lineMapping.
  destruct consumer as [c|]; [destruct (c !! (index + 1)) as [[|n]|]|];
    try done; try (by intros [= <-]).
  replace (index + 1) with (S index) by lia. by intros [= <-].
Qed.

Lemma lineMappings_sublist hashed consumer offset l :
  m_generated <$> omap (lineMapping hashed consumer offset) l
    `sublist_of` (λ index, index + 1 + offset) <$> l.
Proof.
  induction l as [|index l IH]; cbn; [constructor|].
  destruct (lineMapping hashed consumer offset index) as [m|] eqn:Hm; cbn.
  - rewrite (lineMapping_generated _ _ _ _ _ Hm). by constructor.
  - by constructor.
Qed.

(** No generated line is mapped twice. *)
Lemma lineMappings_NoDup hashed consumer offset n :
  NoDup (omap (lineMapping hashed consumer offset) (seq 0 n)).
Proof.
  apply (NoDup_fmap_1 m_generated).
  eapply sublist_NoDup; [|apply lineMappings_sublist].
  apply NoDup_fmap_2; [|apply NoDup_seq]. intros i j. lia.
Qed.

(** C5 (amended). With an incoming map from the script transform, the
    builder completes, whatever was emitted before the script block, and the
    map it returns has one mapping for each line of the script that the
    incoming map resolves to an original line, and none for the others; no
    mapping is repeated, and all are shifted by one offset. When nothing was
    emitted before the script block, the offset is one: the generated line
    of the mapping of script line [ln] is [ln + 1], which is the line of the
    output that script line is on, the opening line of the wrapper being the
    one line before the script. Every mapping [addTemplateMapping] adds, one
    for each line from [beforeLines] (a line number, so positive) to the
    last line of the output, points to one original line: the line of the
    document on which the template section starts. *)
Theorem source_map_lines filePath content rp s consumer parts template output
    before map beforeLines :
  res_map rp = Some consumer →
  parts_template parts = Some template →
  0 < beforeLines →
  (∃ g offset,
     generateSourceMap E filePath content rp (VString s) before = Ret g ∧
     NoDup (g_mappings g) ∧
     NoDup (m_generated <$> g_mappings g) ∧
     (before = EmptyString → offset = 1) ∧
     ∀ m, m ∈ g_mappings g ↔
          ∃ ln o, 1 ≤ ln ≤ length (split_lines s) ∧
                  consumer !! ln = Some o ∧ 0 < o ∧
                  m = {| m_source := g_hashedFilename g;
                         m_generated := ln + offset;
                         m_original := o |}) ∧
  (∀ a b, s = a +:+ b →
     ∃ close,
       scriptBlock s = (";(function(){" +:+ nl +:+ a) +:+ b +:+ close ∧
       S (count_lf (";(function(){" +:+ nl +:+ a)) = S (count_lf a) + 1) ∧
  (∃ g' added,
     addTemplateMapping content parts output map beforeLines = Ret g' ∧
     g_mappings g' = g_mappings map ++ added ∧
     m_generated <$> added =
       seq beforeLines (length (split_lines output) - beforeLines) ∧
     Forall (λ m, m_source m = g_hashedFilename map ∧
                  m_original m =
                    S (count_lf (slice0 (part_start template) content)))
            added).
Proof.
  intros Hmap Ht Hpos. split; [|split].
  - unfold generateSourceMap. rewrite Hmap.
    set (offset := (if truthy (VString before)
                    then length (split_lines before) else 0) + 1).
    eexists _, offset. split; [reflexivity|].
    cbn [g_mappings g_hashedFilename].
    split; [apply lineMappings_NoDup|]. split; [|split].
    + eapply sublist_NoDup; [|apply lineMappings_sublist].
      apply NoDup_fmap_2; [|apply NoDup_seq]. intros i j. lia.
    + intros ->. done.
    + intros m. rewrite list_elem_of_omap. split.
      * intros (index & Hin & Hm). apply elem_of_seq in Hin.
        unfold lineMapping in Hm.
        destruct (consumer !! (index + 1)) as [[|n]|] eqn:Hl; try done.
        injection Hm as <-. exists (index + 1), (S n).
        repeat split; try done; lia.
      * intros (ln & o & [Hlo Hhi] & Hl & Ho & ->).
        exists (ln - 1). split; [apply elem_of_seq; lia|].
        unfold lineMapping. replace (ln - 1 + 1) with ln by lia. rewrite Hl.
        destruct o as [|n]; [lia|]. do 3 f_equal.
  - intros a b ->. unfold scriptBlock. eexists. split.
    + rewrite !app_assoc_s. reflexivity.
    + rewrite !count_lf_app. cbn. lia.
  - unfold addTemplateMapping. rewrite Ht.
    replace (beforeLines =? 0) with false by (symmetry; apply Nat.eqb_neq; lia).
    cbn [andb]. eexists _, _.
    split; [reflexivity|]. cbn [g_mappings]. split; [reflexivity|]. split.
    + rewrite <- list_fmap_compose. apply list_fmap_id.
    + apply Forall_fmap, Forall_forall. intros line _. cbn.
      by rewrite length_split_lines.
Qed.

End SourceMap.

(** * Runs of the model on the concrete instance *)

(** C10, at the script of [doc_script], with and without babel. *)
Lemma untagged_script_uses_babel_run :
  p_promise
    (processScript Demo.withBabel
       (Some (Demo.block_of None None "module.exports = {}" false 8))
       Demo.file Demo.world0).1 =
  Some (Demo.babel (VString "module.exports = {}") Demo.file).
Proof.
  refine (proj2 (proj1 (untagged_script_uses_babel Demo.withBabel
                          (Demo.block_of None None "module.exports = {}" false 8)
                          Demo.file Demo.world0 _) _) Demo.babel _);
    reflexivity.
Defined.

(** C4, at [doc_script] compiled with source maps on and no transform: the
    callback gets the [TypeError]. *)
Lemma sourceMap_without_incoming_map_run :
  compile Demo.plain Demo.development Demo.withMap Demo.doc_script Demo.file
    [1] Demo.world0 =
  (CbError (TypeError "Cannot read properties of undefined (reading 'destroy')"),
   {| w_fs := ∅;
      resolvedPartsCache :=
        {[ "data-v-7ba5bd90" :=
             {| res_template := VNull;
                res_script := VString "module.exports = {}";
                res_map := None; res_styles := [] |} ]};
      w_nextRef := 1; w_trace := [] |}) ∧
  ∃ msg,
    (mergeParts Demo.plain Demo.development Demo.withMap Demo.doc_script
       Demo.file "data-v-7ba5bd90" (Demo.script_only "module.exports = {}")
       false
       {| res_template := VNull; res_script := VString "module.exports = {}";
          res_map := None; res_styles := [] |} Demo.world0).1 =
    Throw (TypeError msg).
Proof.
  split; [vm_compute; reflexivity|].
  apply (sourceMap_without_incoming_map_throws Demo.plain); reflexivity.
Defined.



(** C5, as stated, fails when the incoming map leaves lines out: the script
    of [doc_two_lines] has three lines, the map of the demo transform
    resolves the first, and the builder adds one mapping. *)
Lemma unresolved_lines_have_no_mapping :
  length (split_lines (nl +:+ "var a = 1" +:+ nl +:+ "module.exports = {}")) = 3 ∧
  generateSourceMap Demo.withBabel Demo.file Demo.doc_two_lines
    {| res_template := VNull;
       res_script := VString (nl +:+ "var a = 1" +:+ nl +:+ "module.exports = {}");
       res_map := Some {[ 1 := 1 ]}; res_styles := [] |}
    (VString (nl +:+ "var a = 1" +:+ nl +:+ "module.exports = {}"))
    EmptyString =
  Ret {| g_sourceContent := Some ("a.vue?0c1f0d7a", Demo.doc_two_lines);
         g_mappings := [ {| m_source := "a.vue?0c1f0d7a";
                            m_generated := 2; m_original := 1 |} ];
         g_hashedFilename := "a.vue?0c1f0d7a" |}.
Proof. split; vm_compute; reflexivity. Qed.

(** C5 (amended), at the same script and a template that starts on the
    third line of its document. *)
Lemma source_map_lines_run :
  ∃ g' added,
    addTemplateMapping
      ("<script>" +:+ nl +:+ "</script>" +:+ nl +:+ "<template><p/></template>")
      {| parts_template := Some (Demo.block_of None None "<p/>" false 29);
         parts_script := None; parts_styles := [] |}
      ("a" +:+ nl +:+ "b" +:+ nl +:+ "c" +:+ nl)
      {| g_sourceContent := None; g_mappings := [];
         g_hashedFilename := "a.vue?0c1f0d7a" |} 2 = Ret g' ∧
    g_mappings g' = [] ++ added ∧
    m_generated <$> added = [2; 3] ∧
    Forall (λ m, m_source m = "a.vue?0c1f0d7a" ∧ m_original m = 3) added.
Proof.
  pose proof (source_map_lines Demo.withBabel Demo.file
                ("<script>" +:+ nl +:+ "</script>" +:+ nl +:+
                 "<template><p/></template>")
                {| res_template := VNull; res_script := VNull;
                   res_map := Some {[ 1 := 1 ]}; res_styles := [] |}
                "x" {[ 1 := 1 ]}
                {| parts_template := Some (Demo.block_of None None "<p/>" false 29);
                   parts_script := None; parts_styles := [] |}
                (Demo.block_of None None "<p/>" false 29)
                ("a" +:+ nl +:+ "b" +:+ nl +:+ "c" +:+ nl) EmptyString
                {| g_sourceContent := None; g_mappings := [];
                   g_hashedFilename := "a.vue?0c1f0d7a" |} 2
                eq_refl eq_refl (le_S 1 1 (le_n 1)))
    as (_ & _ & g' & added & H1 & H2 & H3 & H4).
  exists g', added.
  split; [exact H1|]. split; [exact H2|]. split; [exact H3|exact H4].
Defined.

(** C8, at a document whose one style is in a dialect whose transform
    reports an error. *)
Lemma part_failure_aborts_merge_run :
  compile Demo.withLess Demo.development Demo.noMap Demo.doc_less Demo.file
    [2] Demo.world0 =
  (CbError (Failure "SyntaxError" (VString "> 1 | ...")),
   {| w_fs := ∅; resolvedPartsCache := ∅; w_nextRef := 1;
      w_trace := [Console_error "> 1 | ..."] |}).
Proof.
  refine (proj2 (proj2 (proj2
            (part_failure_aborts_merge Demo.withLess Demo.development
               Demo.noMap Demo.doc_less Demo.file [2] Demo.world0
               {| parts_template := None; parts_script := None;
                  parts_styles :=
                    [Demo.block_of (Some "less") None "p { color: red }" false 19] |}
               2
               {| p_kind :=
                    Style (Demo.block_of (Some "less") None "p { color: red }"
                             false 19);
                  p_promise :=
                    Some (Reported []
                            (Throw (Failure "SyntaxError" (VString "> 1 | ...")))) |}
               (Reported [] (Throw (Failure "SyntaxError" (VString "> 1 | ..."))))
               (Failure "SyntaxError" (VString "> 1 | ..."))
               _ _ _ _ _))) [] [] _ _);
    try reflexivity; [by left|].
  intros j t' Hj. by apply elem_of_nil in Hj.
Defined.

(** C1 (the code does otherwise). [doc_template] compiled twice in a row,
    same content, same path: the template of the second run is a new object,
    not the one in the cache, so [templateChanged] holds and the hot-reload
    block of the second output has the [rerender] call. *)
Theorem unchanged_template_rerenders :
  let run :=
    compile Demo.plain Demo.development Demo.noMap Demo.doc_template
      Demo.file [0] in
  let w1 := (run Demo.world0).2 in
  cached w1 "data-v-7ba5bd90" res_template =
    VObject 1 (RenderFns "function(){/*<p>hi</p>*/}" "[]") ∧
  cached (run w1).2 "data-v-7ba5bd90" res_template =
    VObject 2 (RenderFns "function(){/*<p>hi</p>*/}" "[]") ∧
  (run w1).1 =
  CbOutput
    (optionsBinding +:+ functionalGuard +:+
     renderAttachment (VObject 2 (RenderFns "function(){/*<p>hi</p>*/}" "[]")) +:+
     hotReloadHead Demo.plain false "data-v-7ba5bd90" +:+
     "    hotAPI.rerender(" +:+ dq +:+ "data-v-7ba5bd90" +:+ dq +:+
     ", __vue__options__)" +:+ nl +:+
     "  }" +:+ nl +:+
     "})()}").
Proof. repeat split; vm_compute; reflexivity. Qed.

(** C2 (the code does otherwise). A style part whose [src] names a file that
    is not there, in a document compiled with an empty registry: the
    [dependency] notification comes before the read, the failure is printed,
    the content is [undefined], and [trim] on it throws; the callback gets
    the [TypeError] and no output. *)
Theorem missing_style_src_fails :
  compile Demo.plain Demo.development Demo.noMap Demo.doc_style_src Demo.file
    [2] Demo.world0 =
  (CbError (TypeError "Cannot read properties of undefined"),
   {| w_fs := ∅; resolvedPartsCache := ∅; w_nextRef := 1;
      w_trace :=
        [ Emit_dependency "/app/./missing.css";
          Read_file "/app/./missing.css";
          Console_error
            ("Failed to load src: " +:+ dq +:+ "./missing.css" +:+ dq +:+
             " from file: " +:+ dq +:+ "/app/a.vue" +:+ dq) ] |}).
Proof. vm_compute. reflexivity. Qed.

(** * Further properties of the module *)

(** ** The layout of the output *)

Section Layout.

Context (E : Externals).

Lemma app_nil_l_s (a : string) : EmptyString +:+ a = a.
Proof. reflexivity. Qed.

(** The condition under which [mergeParts] inlines the styles. *)
Definition injects (env : Env) (opts : Options) (style : string) : bool :=
  truthy (VString style) && negb (isServer env) && negb (extractCSS opts).

(** The [style] variable after the styles step. *)
Definition styleAfter (env : Env) (opts : Options) (style : string) : string :=
  if injects env opts style then JSON_stringify E style else style.

(** The events of the styles step. *)
Definition styleEvents (env : Env) (filePath style : string) : list event :=
  if truthy (VString style) && negb (isServer env)
  then [Emit_style filePath style] else [].

Lemma mergeStyles_spec env opts filePath style w :
  mergeStyles E env opts filePath style EmptyString w =
  ((styleAfter env opts style,
    if injects env opts style
    then styleInjection E (JSON_stringify E style) else EmptyString),
   {| w_fs := w_fs w; resolvedPartsCache := resolvedPartsCache w;
      w_nextRef := w_nextRef w;
      w_trace := w_trace w ++ styleEvents env filePath style |}).
Proof.
  unfold mergeStyles, styleAfter, injects, styleEvents.
  destruct (truthy (VString style)), (isServer env), (extractCSS opts); cbn;
    try rewrite app_nil_r; try reflexivity; by destruct w.
Qed.

(** The output of a merge, piece by piece, in the order of the steps. *)
Lemma mergeParts_layout env opts content filePath id parts hs rp w out w' :
  mergeParts E env opts content filePath id parts hs rp w = (Ret out, w') →
  ∃ comment,
    (comment = EmptyString ∨ ∃ g, comment = nl +:+ toComment E g) ∧
    (sourceMap opts && truthy (res_script rp) = false →
     comment = EmptyString) ∧
    out =
      (if injects env opts (join nl (res_styles rp))
       then styleInjection E (JSON_stringify E (join nl (res_styles rp)))
       else EmptyString) +:+
      (if truthy (res_script rp)
       then scriptBlock (to_str (res_script rp)) else EmptyString) +:+
      optionsBinding +:+
      (if truthy (res_template rp)
       then (if negb (isProduction env) && negb (isServer env)
             then functionalGuard else EmptyString) +:+
            renderAttachment (res_template rp)
       else EmptyString) +:+
      (if hs then scopeIdLine id else EmptyString) +:+
      (if hotReload env
       then hotReloadBlock E
              (truthy (VString (styleAfter env opts (join nl (res_styles rp)))) &&
               negb (extractCSS opts))
              (strict_ne (res_script rp) (cached w id res_script))
              (strict_ne (res_template rp) (cached w id res_template)) id
       else EmptyString) +:+
      comment.
Proof.
  rewrite mergeParts_unfold. cbn zeta. rewrite mergeStyles_spec.
  set (style := join nl (res_styles rp)).
  set (inj := if injects env opts style
              then styleInjection E (JSON_stringify E style) else EmptyString).
  unfold mergeScript, mergeTemplate, mergeTail.
  cbn [mbind throwable_bind].
  intros H.
  destruct (truthy (res_script rp)) eqn:Hscript.
  - destruct (sourceMap opts) eqn:Hsm.
    + destruct (generateSourceMap E filePath content rp (res_script rp) inj)
        as [g|e]; cbn [fmap throwable_fmap mbind throwable_bind] in H; [|done].
      destruct (truthy (res_template rp)).
      * destruct (addTemplateMapping _ _ _ _ _) as [g'|e];
          cbn [fmap throwable_fmap mbind throwable_bind] in H; [|done].
        injection H as <- _. exists (nl +:+ toComment E g').
        split; [eauto|]. split; [done|].
        destruct (negb (isProduction env) && negb (isServer env)), hs,
          (hotReload env);
          rewrite ?app_assoc_s, ?app_nil_r_s, ?app_nil_l_s; reflexivity.
      * cbn [mbind throwable_bind] in H. injection H as <- _.
        exists (nl +:+ toComment E g). split; [eauto|]. split; [done|].
        destruct hs, (hotReload env);
          rewrite ?app_assoc_s, ?app_nil_r_s, ?app_nil_l_s; reflexivity.
    + cbn [mbind throwable_bind] in H.
      destruct (truthy (res_template rp));
        cbn [mbind throwable_bind] in H; injection H as <- _;
        exists EmptyString; (split; [eauto|]); (split; [done|]);
        destruct (negb (isProduction env) && negb (isServer env)), hs,
          (hotReload env);
        rewrite ?app_assoc_s, ?app_nil_r_s, ?app_nil_l_s; reflexivity.
  - cbn [mbind throwable_bind] in H.
    destruct (truthy (res_template rp));
      cbn [mbind throwable_bind] in H; injection H as <- _;
      exists EmptyString; (split; [eauto|]);
      (split; [done|]);
      destruct (negb (isProduction env) && negb (isServer env)), hs,
        (hotReload env);
      rewrite ?app_assoc_s, ?app_nil_r_s, ?app_nil_l_s; reflexivity.
Qed.

End Layout.

(** ** What a run writes *)

Section Effects.

Context (E : Externals).

(** The world after a merge: the cache entry of the file replaced, the
    events of the styles step added, nothing else. *)
Lemma mergeParts_world env opts content filePath id parts hs rp w :
  (mergeParts E env opts content filePath id parts hs rp w).2 =
  {| w_fs := w_fs w;
     resolvedPartsCache := <[id := rp]> (resolvedPartsCache w);
     w_nextRef := w_nextRef w;
     w_trace := w_trace w ++ styleEvents env filePath (join nl (res_styles rp)) |}.
Proof.
  rewrite mergeParts_unfold. cbn zeta. rewrite mergeStyles_spec. reflexivity.
Qed.

(** An output comes from a merge: the document parsed, the processors were
    started, none of their promises rejected, all of them settled. *)
Lemma compile_merge_inv env opts content filePath order w out w' :
  compile E env opts content filePath order w = (CbOutput out, w') →
  ∃ parts tasks w1 rp w2,
    parseComponent E content = Ret parts ∧
    startParts E parts filePath w = (tasks, w1) ∧
    settleAll E opts (scopeId E filePath) tasks order emptyParts None w1 =
      ((rp, None), w2) ∧
    allSettle tasks order = true ∧
    quiet w w2 ∧
    mergeParts E env opts content filePath (scopeId E filePath) parts
      (existsb part_scoped (parts_styles parts)) rp w2 = (Ret out, w').
Proof.
  destruct (parseComponent E content) as [parts|err] eqn:Hp.
  2:{ unfold compile. rewrite Hp. discriminate. }
  rewrite (compile_unfold E _ _ _ _ _ _ _ Hp).
  pose proof (Quiet_startParts E parts filePath w) as Q1.
  destruct (startParts E parts filePath w) as [tasks w1] eqn:Hs.
  pose proof (Quiet_settleAll E opts (scopeId E filePath) tasks order
                emptyParts None w1) as Q2.
  destruct (settleAll _ _ _ _ _ _ _ _) as [[rp rejected] w2] eqn:Hj.
  destruct rejected as [err|]; [discriminate|].
  destruct (allSettle tasks order) eqn:Ha; [|discriminate].
  destruct (mergeParts _ _ _ _ _ _ _ _ _ _) as [[o|err] w3] eqn:Hm;
    [|discriminate].
  intros [= -> ->]. exists parts, tasks, w1, rp, w2.
  do 4 (split; [done|]). split; [|done].
  eapply quiet_trans; [apply Q1|apply Q2].
Qed.

(** X2. A run that delivers an output has emitted the [style] notification
    exactly once when the compiled styles, joined by newlines, are not empty
    and the run is not for the server, and not at all otherwise. The
    notification carries the file path and the joined styles, and it is the
    last event of the run: every dependency notification comes before it. *)
Theorem style_notification env opts content filePath order w out w' :
  compile E env opts content filePath order w = (CbOutput out, w') →
  ∃ rp evs,
    resolvedPartsCache w' !! scopeId E filePath = Some rp ∧
    Forall noStyle evs ∧
    w_trace w' =
      w_trace w ++ evs ++
      (if truthy (VString (join nl (res_styles rp))) && negb (isServer env)
       then [Emit_style filePath (join nl (res_styles rp))] else []).
Proof.
  intros H. apply compile_merge_inv in H
    as (parts & tasks & w1 & rp & w2 & _ & _ & _ & _ & Hq & Hm).
  pose proof (mergeParts_world env opts content filePath (scopeId E filePath)
                parts (existsb part_scoped (parts_styles parts)) rp w2) as Hw.
  rewrite Hm in Hw. cbn [snd] in Hw. subst w'. cbn.
  destruct (quiet_trace _ _ Hq) as (evs & Ht & Hns).
  exists rp, evs. split; [by rewrite lookup_insert_eq|]. split; [done|].
  unfold styleEvents. by rewrite Ht, <- app_assoc.
Qed.

End Effects.

(** ** The template of a run is a new object *)

Section Template.

Context (E : Externals).

(** An object made before the counter of references reached [n]; a value
    that is no object is below every [n]. *)
Definition below (n : nat) (v : value) : Prop :=
  match v with
  | VObject ref _ => ref < n
  | _ => True
  end.

(** An object made since the counter was [lo]. *)
Definition since (lo : nat) (v : value) : Prop :=
  match v with
  | VObject ref _ => lo ≤ ref
  | _ => False
  end.

(** Every template the cache holds was made before the next reference: the
    cache holds no object of the future. True of the empty cache, and kept
    by [compile]. *)
Definition refsFresh (w : World) : Prop :=
  ∀ id rp, resolvedPartsCache w !! id = Some rp →
           below (w_nextRef w) (res_template rp).

Lemma below_mono n n' v : n ≤ n' → below n v → below n' v.
Proof. destruct v; cbn; try done. lia. Qed.

Lemma since_below_ne lo v v' : since lo v → below lo v' → strict_ne v v' = true.
Proof.
  destruct v as [| | |r o], v' as [| | |r' o']; cbn; try done.
  intros Hs Hb. unfold strict_ne. cbn. case_bool_decide; [lia|done].
Qed.

(** A promise whose callee calls back. *)
Definition reports (t : pending) : Prop :=
  ∃ emitted r, p_promise t = Some (Reported emitted r).

Lemma settle_template opts id t rp w lo :
  match (settle E opts id t rp w).1 with
  | Ret rp' =>
      (below (w_nextRef w) (res_template rp) →
       below (w_nextRef (settle E opts id t rp w).2) (res_template rp')) ∧
      (lo ≤ w_nextRef w → since lo (res_template rp) →
       since lo (res_template rp')) ∧
      (lo ≤ w_nextRef w → p_kind t = Template → reports t →
       since lo (res_template rp'))
  | Throw _ => True
  end.
Proof.
  destruct (p_promise t) as [[emitted r|err|]|] eqn:Hp.
  2:{ unfold settle. by rewrite Hp. }
  2,3: rewrite settle_idle by auto; cbn;
       (split; [done|]); (split; [done|]);
       intros _ _ (? & ? & ?); congruence.
  rewrite (settle_reported E opts id t rp w emitted r Hp).
  destruct r as [res|err]; [|done].
  pose proof (calledBack_world emitted (Ret res) w) as Hw.
  destruct (calledBack emitted (Ret res) w) as [fs1 c1 n1 tr1].
  injection Hw as -> -> -> ->.
  destruct (p_kind t) as [| |part]; cbn [thenPart].
  - unfold thenTemplate, compileTemplate.
    destruct (translate E res) as [[render static]|e]; [|done].
    unfold mbind, state_bind, alloc, mret, state_ret. cbn.
    split; [intros _; lia|]. split; [by intros Hlo _|by intros Hlo _ _].
  - unfold thenScript.
    destruct res as [| | |ref [code map|render static]]; cbn; done.
  - unfold thenStyle. destruct res as [| |s|ref o]; cbn; try done.
    by destruct (rewriteStyle E id (trim s) (part_scoped part) opts).
Qed.

Lemma settleAll_below opts id tasks order :
  ∀ rp rejected w,
    below (w_nextRef w) (res_template rp) →
    below (w_nextRef (settleAll E opts id tasks order rp rejected w).2)
          (res_template (settleAll E opts id tasks order rp rejected w).1.1).
Proof.
  induction order as [|i order IH]; intros rp rejected w Hb; cbn; [done|].
  destruct (tasks !! i) as [t|]; [|by apply IH].
  unfold mbind, state_bind.
  pose proof (settle_template opts id t rp w 0) as Hs.
  pose proof (Quiet_settle E opts id t rp w) as Hq.
  destruct (settle E opts id t rp w) as [[rp'|e] w1]; cbn [fst snd] in *.
  - apply IH. by apply Hs.
  - apply IH. eapply below_mono; [apply (quiet_ref _ _ Hq)|done].
Qed.

Lemma settleAll_since opts id tasks lo t0 order :
  tasks !! 0 = Some t0 →
  p_kind t0 = Template →
  reports t0 →
  ∀ rp rejected w,
    (settleAll E opts id tasks order rp rejected w).1.2 = None →
    lo ≤ w_nextRef w →
    0 ∈ order ∨ since lo (res_template rp) →
    since lo (res_template (settleAll E opts id tasks order rp rejected w).1.1).
Proof.
  intros H0 Hk Hp.
  induction order as [|i order IH]; intros rp rejected w Hnone Hlo Hor; cbn in *.
  { destruct Hor as [Hor|Hor]; [by apply elem_of_nil in Hor|done]. }
  destruct (tasks !! i) as [t|] eqn:Hi.
  2:{ apply IH; [done..|]. destruct Hor as [Hor|Hor]; [|by right].
      apply elem_of_cons in Hor as [<-|Hor]; [congruence|by left]. }
  revert Hnone. unfold mbind, state_bind.
  pose proof (settle_template opts id t rp w lo) as Hs.
  pose proof (Quiet_settle E opts id t rp w) as Hq.
  destruct (settle E opts id t rp w) as [[rp'|e] w1]; cbn [fst snd] in *.
  - intros Hnone. destruct Hs as (_ & Hkeep & Hnew).
    apply IH; [done|pose proof (quiet_ref _ _ Hq); lia|].
    destruct Hor as [Hor|Hor]; [|by right; apply Hkeep].
    apply elem_of_cons in Hor as [<-|Hor]; [|by left].
    right. rewrite H0 in Hi. injection Hi as <-. by apply Hnew.
  - destruct rejected as [e0|]; by rewrite settleAll_keeps.
Qed.

Lemma processTemplate_kind part filePath w :
  p_kind (processTemplate E part filePath w).1 = Template ∧
  (is_Some part → is_Some (p_promise (processTemplate E part filePath w).1)).
Proof.
  unfold processTemplate. destruct part as [part|].
  - unfold mbind, state_bind.
    destruct (getContent E part filePath w) as [template w1].
    destruct (compileAsPromise _ _ _ _ _ _) as [p w2]. cbn. eauto.
  - cbn. split; [done|]. by intros [? ?].
Qed.

Lemma startParts_template parts filePath w :
  ∃ t0,
    (startParts E parts filePath w).1 !! 0 = Some t0 ∧
    p_kind t0 = Template ∧
    (is_Some (parts_template parts) → is_Some (p_promise t0)).
Proof.
  unfold startParts, mbind, state_bind.
  pose proof (processTemplate_kind (parts_template parts) filePath w) as Hk.
  destruct (processTemplate E (parts_template parts) filePath w) as [t w1].
  destruct (processScript E (parts_script parts) filePath w1) as [s w2].
  destruct (mapM (M:=State) _ _ w2) as [ss w3]. cbn in *. eauto.
Qed.

(** A promise that is not settled from the start settles only when [order]
    has its index. *)
Lemma allSettle_elem tasks order i t :
  allSettle tasks order = true →
  tasks !! i = Some t →
  is_Some (p_promise t) →
  i ∈ order.
Proof.
  unfold allSettle. rewrite forallb_forall. intros Hall Ht [p Hp].
  specialize (Hall i). rewrite Ht in Hall. destruct t as [k pr]. cbn in Hp.
  subst pr. eapply bool_decide_eq_true_1.
  assert (In i (seq 0 (length tasks))) as Hin
    by (apply in_seq; apply lookup_lt_Some in Ht; lia).
  specialize (Hall Hin). by destruct p.
Qed.

(** Nor is it one that never settles. *)
Lemma allSettle_loud tasks order i t :
  allSettle tasks order = true →
  tasks !! i = Some t →
  p_promise t ≠ Some Silent.
Proof.
  unfold allSettle. rewrite forallb_forall. intros Hall Ht Hp.
  specialize (Hall i). rewrite Ht in Hall. destruct t as [k pr]. cbn in Hp.
  subst pr. assert (In i (seq 0 (length tasks))) as Hin
    by (apply in_seq; apply lookup_lt_Some in Ht; lia).
  by specialize (Hall Hin).
Qed.

(** In a join that ends without a rejection, a started promise that has
    settled is one whose callee called back. *)
Lemma settled_reports opts id tasks order i t rp w :
  allSettle tasks order = true →
  tasks !! i = Some t →
  is_Some (p_promise t) →
  (settleAll E opts id tasks order rp None w).1.2 = None →
  reports t.
Proof.
  intros Hall Ht [p Hp] Hnone.
  pose proof (allSettle_elem tasks order i t Hall Ht (mk_is_Some _ _ Hp)) as Hi.
  pose proof (allSettle_loud tasks order i t Hall Ht) as Hl.
  destruct p as [emitted r|err|]; [by exists emitted, r| |done].
  destruct (settleAll_rejects E opts id tasks order i t (Thrown err) err Ht Hp
              eq_refl Hi rp None w) as [e He].
  congruence.
Qed.

Lemma mergeParts_nextRef env opts content filePath id parts hs rp w :
  w_nextRef (mergeParts E env opts content filePath id parts hs rp w).2 =
  w_nextRef w.
Proof.
  rewrite mergeParts_unfold. cbn zeta.
  assert (w_nextRef
            (mergeStyles E env opts filePath (join nl (res_styles rp))
               EmptyString (cache_set id rp w).2).2 = w_nextRef w) as H.
  { unfold mergeStyles.
    destruct (truthy _ && negb (isServer env)); [|done].
    by destruct (negb (extractCSS opts)). }
  by destruct (mergeStyles _ _ _ _ _ _ _) as [[style output] w2].
Qed.

(** [compile] keeps the cache free of objects of the future. *)
Lemma compile_refsFresh env opts content filePath order w :
  refsFresh w →
  refsFresh (compile E env opts content filePath order w).2.
Proof.
  intros Hw. destruct (parseComponent E content) as [parts|err] eqn:Hp.
  2:{ unfold compile. by rewrite Hp. }
  rewrite (compile_unfold E _ _ _ _ _ _ _ Hp).
  pose proof (Quiet_startParts E parts filePath w) as Q1.
  destruct (startParts E parts filePath w) as [tasks w1].
  pose proof (Quiet_settleAll E opts (scopeId E filePath) tasks order
                emptyParts None w1) as Q2.
  pose proof (settleAll_below opts (scopeId E filePath) tasks order
                emptyParts None w1 I) as Hb.
  destruct (settleAll _ _ _ _ _ _ _ _) as [[rp rejected] w2].
  cbn [fst snd] in *.
  assert (refsFresh w2) as Hw2.
  { intros id rp' Hl. rewrite (quiet_cache _ _ Q2), (quiet_cache _ _ Q1) in Hl.
    eapply below_mono; [|by eapply Hw].
    pose proof (quiet_ref _ _ Q1). pose proof (quiet_ref _ _ Q2). lia. }
  destruct rejected as [err|]; [done|].
  destruct (allSettle tasks order); [|done].
  pose proof (mergeParts_cache E env opts content filePath (scopeId E filePath)
                parts (existsb part_scoped (parts_styles parts)) rp w2) as Hc.
  pose proof (mergeParts_nextRef env opts content filePath (scopeId E filePath)
                parts (existsb part_scoped (parts_styles parts)) rp w2) as Hn.
  destruct (mergeParts _ _ _ _ _ _ _ _ _ _) as [r w3]. cbn [fst snd] in *.
  intros id rp' Hl. rewrite Hc in Hl. rewrite Hn.
  destruct (decide (scopeId E filePath = id)) as [<-|Hne].
  - rewrite lookup_insert_eq in Hl. by injection Hl as <-.
  - rewrite lookup_insert_ne in Hl by done. by eapply Hw2.
Qed.

Lemma mapM_cons_state {A B} (f : A → State B) (x : A) (l : list A) (w : World) :
  mapM f (x :: l) w =
  let '(y, w1) := f x w in
  let '(k, w2) := mapM f l w1 in (y :: k, w2).
Proof.
  change (mapM f (x :: l)) with (y ← f x; k ← mapM f l; mret (y :: k)).
  unfold mbind, state_bind. destruct (f x w) as [y w1].
  by destruct (mapM f l w1) as [k w2].
Qed.

Lemma processStyle_kind part filePath w :
  p_kind (processStyle E part filePath w).1 = Style part ∧
  is_Some (p_promise (processStyle E part filePath w).1).
Proof.
  unfold processStyle, mbind, state_bind.
  destruct (getContent E part filePath w) as [style w1].
  destruct (compileAsPromise _ _ _ _ _ _) as [p w2]. cbn. eauto.
Qed.

(** A started processor that will not write the template. *)
Definition leavesTemplate (t : pending) : Prop :=
  p_kind t = Template → p_promise t = None.

Lemma mapM_processStyle_leavesTemplate filePath styles :
  ∀ w, Forall leavesTemplate
         (mapM (λ style, processStyle E style filePath) styles w).1.
Proof.
  induction styles as [|style styles IH]; intros w; [constructor|].
  rewrite mapM_cons_state.
  pose proof (processStyle_kind style filePath w) as [Hk _].
  destruct (processStyle E style filePath w) as [y w1].
  specialize (IH w1). destruct (mapM (M:=State) _ styles w1) as [k w2].
  cbn in *.
  constructor; [|done]. intros Ht. congruence.
Qed.

Lemma startParts_leavesTemplate parts filePath w :
  parts_template parts = None →
  Forall leavesTemplate (startParts E parts filePath w).1.
Proof.
  intros Hnone. unfold startParts, mbind, state_bind. rewrite Hnone.
  cbn [processTemplate mret state_ret].
  pose proof (processScript_kind E (parts_script parts) filePath w) as Hk.
  destruct (processScript E (parts_script parts) filePath w) as [s w2].
  pose proof (mapM_processStyle_leavesTemplate filePath (parts_styles parts) w2)
    as Hss.
  destruct (mapM (M:=State) _ (parts_styles parts) w2) as [ss w3]. cbn in *.
  constructor; [done|]. constructor; [|done]. intros Ht. congruence.
Qed.

Lemma settle_leavesTemplate opts id t rp w :
  leavesTemplate t →
  match (settle E opts id t rp w).1 with
  | Ret rp' => res_template rp' = res_template rp
  | Throw _ => True
  end.
Proof.
  intros Hl.
  destruct (p_promise t) as [[emitted r|err|]|] eqn:Hp.
  2:{ unfold settle. by rewrite Hp. }
  2,3: by rewrite settle_idle by auto.
  rewrite (settle_reported E opts id t rp w emitted r Hp).
  destruct r as [res|err]; [|done].
  generalize (calledBack emitted (Ret res) w). intros w1.
  destruct (p_kind t) as [| |part] eqn:Hk; cbn [thenPart].
  - specialize (Hl Hk). congruence.
  - unfold thenScript.
    destruct res as [| | |ref [code map|render static]]; cbn; done.
  - unfold thenStyle. destruct res as [| |s|ref o]; cbn; try done.
    by destruct (rewriteStyle E id (trim s) (part_scoped part) opts).
Qed.

Lemma settleAll_leavesTemplate opts id tasks order :
  Forall leavesTemplate tasks →
  ∀ rp rejected w,
    res_template (settleAll E opts id tasks order rp rejected w).1.1 =
    res_template rp.
Proof.
  intros Hall.
  induction order as [|i order IH]; intros rp rejected w; cbn; [done|].
  destruct (tasks !! i) as [t|] eqn:Hi; [|by apply IH].
  unfold mbind, state_bind.
  pose proof (settle_leavesTemplate opts id t rp w) as Hs.
  destruct (settle E opts id t rp w) as [[rp'|e] w1]; cbn [fst snd] in *.
  - rewrite IH. apply Hs. eapply Forall_lookup_1; eauto.
  - apply IH.
Qed.

(** The cache entry of the file after a run that delivered an output: the
    parts the merge was given, in a cache that is otherwise the one the run
    started from. *)
Lemma compile_output_cache env opts content filePath order w out w' :
  compile E env opts content filePath order w = (CbOutput out, w') →
  ∃ parts tasks w1 rp w2,
    parseComponent E content = Ret parts ∧
    startParts E parts filePath w = (tasks, w1) ∧
    settleAll E opts (scopeId E filePath) tasks order emptyParts None w1 =
      ((rp, None), w2) ∧
    allSettle tasks order = true ∧
    quiet w w1 ∧ quiet w w2 ∧
    resolvedPartsCache w' = <[scopeId E filePath := rp]> (resolvedPartsCache w) ∧
    ∃ comment,
      (comment = EmptyString ∨ ∃ g, comment = nl +:+ toComment E g) ∧
      out =
        (if injects env opts (join nl (res_styles rp))
         then styleInjection E (JSON_stringify E (join nl (res_styles rp)))
         else EmptyString) +:+
        (if truthy (res_script rp)
         then scriptBlock (to_str (res_script rp)) else EmptyString) +:+
        optionsBinding +:+
        (if truthy (res_template rp)
         then (if negb (isProduction env) && negb (isServer env)
               then functionalGuard else EmptyString) +:+
              renderAttachment (res_template rp)
         else EmptyString) +:+
        (if existsb part_scoped (parts_styles parts)
         then scopeIdLine (scopeId E filePath) else EmptyString) +:+
        (if hotReload env
         then hotReloadBlock E
                (truthy (VString (styleAfter E env opts (join nl (res_styles rp)))) &&
                 negb (extractCSS opts))
                (strict_ne (res_script rp) (cached w (scopeId E filePath) res_script))
                (strict_ne (res_template rp)
                   (cached w (scopeId E filePath) res_template))
                (scopeId E filePath)
         else EmptyString) +:+
        comment.
Proof.
  intros H. apply compile_merge_inv in H
    as (parts & tasks & w1 & rp & w2 & Hp & Hs & Hj & Ha & Hq & Hm).
  exists parts, tasks, w1, rp, w2. do 4 (split; [done|]).
  split. { pose proof (Quiet_startParts E parts filePath w) as Q.
           by rewrite Hs in Q. }
  split; [done|].
  pose proof (mergeParts_world E env opts content filePath (scopeId E filePath)
                parts (existsb part_scoped (parts_styles parts)) rp w2) as Hw.
  rewrite Hm in Hw. cbn [snd] in Hw. split.
  { subst w'. cbn. by rewrite (quiet_cache _ _ Hq). }
  apply mergeParts_layout in Hm as (comment & Hc & _ & ->).
  exists comment. split; [done|].
  unfold cached. by rewrite (quiet_cache _ _ Hq).
Qed.

End Template.

(** ** The layout of a delivered output, and its hot-reload block *)

Section HotReload.

Context (E : Externals).

Lemma app_ends (a b tail : string) :
  (∃ h, b = h +:+ tail) → ∃ h, a +:+ b = h +:+ tail.
Proof. intros [h ->]. exists (a +:+ h). by rewrite app_assoc_s. Qed.

(** The hot-reload block ends with the [else] branch of its test, which
    holds the update and nothing else. *)
Lemma hotReloadBlock_else d sc tc id :
  ∃ h, hotReloadBlock E d sc tc id =
       h +:+ "  } else {" +:+ nl +:+ updateAction sc tc id +:+
       "  }" +:+ nl +:+ "})()}".
Proof.
  assert (∃ h, hotReloadHead E d id = h +:+ "  } else {" +:+ nl) as [h Hh].
  { unfold hotReloadHead.
    repeat (first [ by exists EmptyString | apply app_ends ]). }
  exists h. unfold hotReloadBlock, hotReloadTail. rewrite Hh.
  by rewrite !app_assoc_s.
Qed.

(** The end of an output under hot reload: the [else] branch with the
    update of this run, the end of the block, and the map comment. *)
Lemma hot_output env opts content filePath order w out w' :
  compile E env opts content filePath order w = (CbOutput out, w') →
  hotReload env = true →
  ∃ pre rp comment,
    resolvedPartsCache w' =
      <[scopeId E filePath := rp]> (resolvedPartsCache w) ∧
    (comment = EmptyString ∨ ∃ g, comment = nl +:+ toComment E g) ∧
    out = pre +:+ "  } else {" +:+ nl +:+
          updateAction
            (strict_ne (res_script rp) (cached w (scopeId E filePath) res_script))
            (strict_ne (res_template rp)
               (cached w (scopeId E filePath) res_template))
            (scopeId E filePath) +:+
          "  }" +:+ nl +:+ "})()}" +:+ comment.
Proof.
  intros H Hhot. apply compile_output_cache in H
    as (parts & tasks & w1 & rp & w2 & Hp & _ & _ & _ & _ & _ & Hc &
        comment & Hcomment & ->).
  rewrite Hhot.
  destruct (hotReloadBlock_else
              (truthy (VString (styleAfter E env opts (join nl (res_styles rp)))) &&
               negb (extractCSS opts))
              (strict_ne (res_script rp) (cached w (scopeId E filePath) res_script))
              (strict_ne (res_template rp)
                 (cached w (scopeId E filePath) res_template))
              (scopeId E filePath)) as [h ->].
  set (i := if injects env opts _ then _ else _).
  set (a := if truthy (res_script rp) then _ else _).
  set (b := if truthy (res_template rp) then _ else _).
  set (c := if existsb part_scoped (parts_styles parts) then _ else _).
  exists (i +:+ a +:+ optionsBinding +:+ b +:+ c +:+ h), rp, comment.
  split; [done|]. split; [done|]. by rewrite !app_assoc_s.
Qed.

(** C6. Of two compilations of one file in a row, when the script the second
    resolved differs from the script the first left in the cache, the
    hot-reload block of the second has the full reload as its update, whether
    or not the template changed too: the output ends, before the map comment
    if there is one, with the [else] branch of the block, and between the
    [else] and the end of the block stands the [hotAPI.reload] call with the
    ScopeId of the file, and nothing else. *)
Theorem script_change_reloads env1 env2 opts1 opts2 content1 content2 filePath
    order1 order2 w0 w1 w2 out1 out2 :
  compile E env1 opts1 content1 filePath order1 w0 = (CbOutput out1, w1) →
  compile E env2 opts2 content2 filePath order2 w1 = (CbOutput out2, w2) →
  hotReload env2 = true →
  strict_ne (cached w2 (scopeId E filePath) res_script)
            (cached w1 (scopeId E filePath) res_script) = true →
  ∃ pre comment,
    out2 = pre +:+
           "  } else {" +:+ nl +:+
           "    hotAPI.reload(" +:+ dq +:+ "data-v-" +:+ genId E filePath +:+
           dq +:+ ", __vue__options__)" +:+ nl +:+
           "  }" +:+ nl +:+
           "})()}" +:+ comment ∧
    (comment = EmptyString ∨ ∃ g, comment = nl +:+ toComment E g).
Proof.
  intros _ H2 Hhot Hne.
  apply hot_output in H2 as (pre & rp & comment & Hc & Hcomment & ->);
    [|done].
  exists pre, comment. split; [|done].
  assert (cached w2 (scopeId E filePath) res_script = res_script rp) as Hs.
  { unfold cached. by rewrite Hc, lookup_insert_eq. }
  rewrite Hs in Hne. rewrite Hne.
  unfold updateAction, reloadCall, scopeId. by rewrite !app_assoc_s.
Qed.



(** X5. Under hot reload, a document that has a template part always gets
    an update action when it is compiled again: the [hotAPI.reload] call if
    the script of the run differs from the script in the cache, the
    [hotAPI.rerender] call otherwise, and this whether or not the template
    text changed. The template of a run is a new object, and the merge
    compares it by reference with the object of the run before. *)
Theorem template_update_action env1 env2 opts1 opts2 content1 content2 filePath
    order1 order2 w0 w1 w2 out1 out2 parts2 :
  refsFresh w0 →
  compile E env1 opts1 content1 filePath order1 w0 = (CbOutput out1, w1) →
  compile E env2 opts2 content2 filePath order2 w1 = (CbOutput out2, w2) →
  parseComponent E content2 = Ret parts2 →
  is_Some (parts_template parts2) →
  hotReload env2 = true →
  ∃ pre comment,
    out2 = pre +:+
           "  } else {" +:+ nl +:+
           (if strict_ne (cached w2 (scopeId E filePath) res_script)
                         (cached w1 (scopeId E filePath) res_script)
            then "    hotAPI.reload("
            else "    hotAPI.rerender(") +:+
           dq +:+ "data-v-" +:+ genId E filePath +:+ dq +:+
           ", __vue__options__)" +:+ nl +:+
           "  }" +:+ nl +:+
           "})()}" +:+ comment ∧
    (comment = EmptyString ∨ ∃ g, comment = nl +:+ toComment E g).
Proof.
  intros Hw0 H1 H2 Hparse Ht Hhot.
  assert (refsFresh w1) as Hw1.
  { pose proof (compile_refsFresh E env1 opts1 content1 filePath order1 w0 Hw0)
      as H. by rewrite H1 in H. }
  pose proof (hot_output env2 opts2 content2 filePath order2 w1 out2 w2 H2 Hhot)
    as (pre & rp' & comment & Hc' & Hcomment & Hout).
  apply compile_output_cache in H2
    as (parts & tasks & ws & rp & wm & Hp & Hs & Hj & Ha & Hqs & _ & Hc & _).
  assert (rp' = rp) as ->.
  { apply (f_equal (λ m, m !! scopeId E filePath)) in Hc'.
    rewrite Hc, !lookup_insert_eq in Hc'. by injection Hc'. }
  rewrite Hparse in Hp. injection Hp as <-.
  destruct (startParts_template E parts2 filePath w1) as (t0 & H0 & Hk & Hp0).
  rewrite Hs in H0. cbn [fst] in H0. specialize (Hp0 Ht).
  pose proof (allSettle_elem tasks order2 0 t0 Ha H0 Hp0) as Hin.
  assert (reports t0) as Hr0.
  { eapply (settled_reports E opts2 (scopeId E filePath) tasks order2 0 t0
              emptyParts ws); [done..|]. by rewrite Hj. }
  pose proof (settleAll_since E opts2 (scopeId E filePath) tasks (w_nextRef w1)
                t0 order2 H0 Hk Hr0 emptyParts None ws) as Hsince.
  rewrite Hj in Hsince. cbn [fst snd] in Hsince.
  specialize (Hsince eq_refl (quiet_ref _ _ Hqs) (or_introl Hin)).
  assert (strict_ne (res_template rp)
            (cached w1 (scopeId E filePath) res_template) = true) as Htc.
  { eapply since_below_ne; [exact Hsince|]. unfold cached.
    destruct (resolvedPartsCache w1 !! scopeId E filePath) as [rp1|] eqn:Hl;
      [|done].
    by eapply Hw1. }
  assert (cached w2 (scopeId E filePath) res_script = res_script rp) as ->.
  { unfold cached. by rewrite Hc, lookup_insert_eq. }
  exists pre, comment. split; [|done]. rewrite Hout, Htc.
  unfold updateAction, reloadCall, rerenderCall, scopeId.
  destruct (strict_ne (res_script rp) _); by rewrite !app_assoc_s.
Qed.

(** X6. The first compile of a file (no cache entry for its ScopeId) under
    hot reload always has the [hotAPI.reload] call as its update action,
    provided the run resolved its script to a text or to [null]: the
    previous script is then [undefined], which differs from both. *)
Theorem first_compile_reloads env opts content filePath order w out w' :
  resolvedPartsCache w !! scopeId E filePath = None →
  compile E env opts content filePath order w = (CbOutput out, w') →
  hotReload env = true →
  cached w' (scopeId E filePath) res_script ≠ VUndefined →
  ∃ pre comment,
    out = pre +:+
          "  } else {" +:+ nl +:+
          "    hotAPI.reload(" +:+ dq +:+ "data-v-" +:+ genId E filePath +:+
          dq +:+ ", __vue__options__)" +:+ nl +:+
          "  }" +:+ nl +:+
          "})()}" +:+ comment ∧
    (comment = EmptyString ∨ ∃ g, comment = nl +:+ toComment E g).
Proof.
  intros Hnone H Hhot Hscript.
  apply hot_output in H as (pre & rp & comment & Hc & Hcomment & ->);
    [|done].
  assert (cached w' (scopeId E filePath) res_script = res_script rp) as Hs'.
  { unfold cached. by rewrite Hc, lookup_insert_eq. }
  rewrite Hs' in Hscript.
  assert (strict_ne (res_script rp) (cached w (scopeId E filePath) res_script)
          = true) as ->.
  { unfold cached. rewrite Hnone. cbn. by destruct (res_script rp). }
  exists pre, comment. split; [|done].
  unfold updateAction, reloadCall, scopeId. by rewrite !app_assoc_s.
Qed.

(** X7. A document without a template part, compiled again under hot reload
    after a run that had no template part either, with a script that is the
    one in the cache: the hot-reload block has no update action, neither the
    reload nor the re-render. *)
Theorem unchanged_script_no_update env1 env2 opts1 opts2 content1 content2
    filePath order1 order2 w0 w1 w2 out1 out2 parts1 parts2 :
  compile E env1 opts1 content1 filePath order1 w0 = (CbOutput out1, w1) →
  compile E env2 opts2 content2 filePath order2 w1 = (CbOutput out2, w2) →
  parseComponent E content1 = Ret parts1 →
  parseComponent E content2 = Ret parts2 →
  parts_template parts1 = None →
  parts_template parts2 = None →
  hotReload env2 = true →
  strict_eq (cached w2 (scopeId E filePath) res_script)
            (cached w1 (scopeId E filePath) res_script) = true →
  ∃ pre disposeStyle comment,
    out2 = pre +:+ hotReloadHead E disposeStyle (scopeId E filePath) +:+
           hotReloadTail +:+ comment ∧
    (comment = EmptyString ∨ ∃ g, comment = nl +:+ toComment E g).
Proof.
  intros H1 H2 Hp1 Hp2 Ht1 Ht2 Hhot Heq.
  apply compile_output_cache in H1
    as (p1 & tasks1 & ws1 & rp1 & wm1 & Hp1' & Hs1 & Hj1 & _ & _ & _ & Hc1 & _).
  rewrite Hp1 in Hp1'. injection Hp1' as <-.
  apply compile_output_cache in H2
    as (p2 & tasks2 & ws2 & rp2 & wm2 & Hp2' & Hs2 & Hj2 & _ & _ & _ & Hc2 &
        comment & Hcomment & ->).
  rewrite Hp2 in Hp2'. injection Hp2' as <-.
  assert (res_template rp1 = VNull) as Hn1.
  { pose proof (startParts_leavesTemplate E parts1 filePath w0 Ht1) as Hl.
    rewrite Hs1 in Hl.
    pose proof (settleAll_leavesTemplate E opts1 (scopeId E filePath) tasks1
                  order1 Hl emptyParts None ws1) as Hk.
    by rewrite Hj1 in Hk. }
  assert (res_template rp2 = VNull) as Hn2.
  { pose proof (startParts_leavesTemplate E parts2 filePath w1 Ht2) as Hl.
    rewrite Hs2 in Hl.
    pose proof (settleAll_leavesTemplate E opts2 (scopeId E filePath) tasks2
                  order2 Hl emptyParts None ws2) as Hk.
    by rewrite Hj2 in Hk. }
  assert (cached w1 (scopeId E filePath) res_template = VNull) as ->.
  { unfold cached. by rewrite Hc1, lookup_insert_eq. }
  assert (cached w2 (scopeId E filePath) res_script = res_script rp2) as Hs'.
  { unfold cached. by rewrite Hc2, lookup_insert_eq. }
  rewrite Hs' in Heq. unfold strict_ne at 1 2. rewrite Heq, Hn2. cbn [strict_eq negb].
  rewrite Hhot. unfold hotReloadBlock, updateAction. cbn [truthy].
  set (i := if injects env2 opts2 _ then _ else _).
  set (a := if truthy (res_script rp2) then _ else _).
  set (c := if existsb part_scoped (parts_styles parts2) then _ else _).
  exists (i +:+ a +:+ optionsBinding +:+ EmptyString +:+ c),
         (truthy (VString (styleAfter E env2 opts2 (join nl (res_styles rp2)))) &&
          negb (extractCSS opts2)), comment.
  split; [|done]. by rewrite !app_assoc_s, ?app_nil_l_s.
Qed.

End HotReload.

(** ** When a run delivers an output *)

Section Delivery.

Context (E : Externals).

(** A value that is no object. *)
Definition primitive (v : value) : Prop :=
  match v with
  | VObject _ _ => False
  | _ => True
  end.

Lemma settle_script_primitive opts id t rp w :
  primitive (res_script rp) →
  match (settle E opts id t rp w).1 with
  | Ret rp' => primitive (res_script rp')
  | Throw _ => True
  end.
Proof.
  intros Hprim.
  destruct (p_promise t) as [[emitted r|err|]|] eqn:Hp.
  2:{ unfold settle. by rewrite Hp. }
  2,3: by rewrite settle_idle by auto.
  rewrite (settle_reported E opts id t rp w emitted r Hp).
  destruct r as [res|err]; [|done].
  generalize (calledBack emitted (Ret res) w). intros w1.
  destruct (p_kind t) as [| |part]; cbn [thenPart].
  - unfold thenTemplate, compileTemplate.
    destruct (translate E res) as [[render static]|e]; [|done].
    unfold mbind, state_bind, alloc, mret, state_ret. by cbn.
  - unfold thenScript.
    destruct res as [| | |ref [code map|render static]]; cbn; done.
  - unfold thenStyle. destruct res as [| |s|ref o]; cbn; try done.
    by destruct (rewriteStyle E id (trim s) (part_scoped part) opts).
Qed.

Lemma settleAll_script_primitive opts id tasks order :
  ∀ rp rejected w,
    primitive (res_script rp) →
    primitive (res_script (settleAll E opts id tasks order rp rejected w).1.1).
Proof.
  induction order as [|i order IH]; intros rp rejected w Hprim; cbn; [done|].
  destruct (tasks !! i) as [t|]; [|by apply IH].
  unfold mbind, state_bind.
  pose proof (settle_script_primitive opts id t rp w Hprim) as Hs.
  destruct (settle E opts id t rp w) as [[rp'|e] w1]; cbn [fst snd] in *;
    by apply IH.
Qed.

(** The merge returns an output unless the source-map builder is run
    without an incoming map. *)
Lemma mergeParts_returns env opts content filePath id parts hs rp w :
  primitive (res_script rp) →
  (truthy (res_template rp) = true → is_Some (parts_template parts)) →
  (sourceMap opts && truthy (res_script rp) = true → is_Some (res_map rp)) →
  ∃ out,
    (mergeParts E env opts content filePath id parts hs rp w).1 = Ret out.
Proof.
  intros Hprim Htemplate Hmap.
  rewrite mergeParts_unfold. cbn zeta. rewrite mergeStyles_spec. cbn [fst].
  assert (∃ map output,
            mergeScript E opts filePath content rp
              (if injects env opts (join nl (res_styles rp))
               then styleInjection E (JSON_stringify E (join nl (res_styles rp)))
               else EmptyString) = Ret (map, output)) as (map & output & ->).
  { unfold mergeScript. destruct (truthy (res_script rp)) eqn:Ht; [|eauto].
    destruct (sourceMap opts); [|cbn; eauto].
    destruct (Hmap eq_refl) as [consumer Hc].
    unfold generateSourceMap. rewrite Hc.
    destruct (res_script rp) as [| |s|ref o]; try done. cbn. eauto. }
  cbn [mbind throwable_bind].
  assert (∃ map' output',
            mergeTemplate env content parts rp map (output +:+ optionsBinding)
            = Ret (map', output')) as (map' & output' & ->).
  { unfold mergeTemplate. destruct (truthy (res_template rp)); [|eauto].
    destruct map as [g|]; [|cbn; eauto].
    destruct (Htemplate eq_refl) as [template Hsome].
    unfold addTemplateMapping. rewrite Hsome.
    rewrite (length_split_lines
               (if negb (isProduction env) && negb (isServer env)
                then (output +:+ optionsBinding) +:+ functionalGuard
                else output +:+ optionsBinding)).
    cbn. eauto. }
  cbn [mbind throwable_bind]. eauto.
Qed.


(** X8. When every promise of a run settles and none rejects, [compile]
    delivers an output, but for one case: source maps are on, the script the
    run resolved is not empty, and its transform gave no incoming map; then,
    and only then, the callback gets an error in place of the output. *)
Theorem compile_delivers env opts content filePath order w parts :
  let tasks := (startParts E parts filePath w).1 in
  let joined :=
    settleAll E opts (scopeId E filePath) tasks order emptyParts None
      (startParts E parts filePath w).2 in
  parseComponent E content = Ret parts →
  joined.1.2 = None →
  allSettle tasks order = true →
  (∃ out, (compile E env opts content filePath order w).1 = CbOutput out) ↔
  (sourceMap opts && truthy (res_script joined.1.1) = true →
   is_Some (res_map joined.1.1)).
Proof.
  intros tasks joined Hparse Hnone Hall.
  rewrite (compile_unfold E env opts content filePath order w parts Hparse).
  pose proof (settleAll_script_primitive opts (scopeId E filePath) tasks order
                emptyParts None (startParts E parts filePath w).2 I) as Hprim.
  assert (truthy (res_template joined.1.1) = true →
          is_Some (parts_template parts)) as Htemplate.
  { destruct (parts_template parts) as [t|] eqn:Ht; [eauto|].
    pose proof (startParts_leavesTemplate E parts filePath w Ht) as Hl.
    pose proof (settleAll_leavesTemplate E opts (scopeId E filePath) tasks
                  order Hl emptyParts None (startParts E parts filePath w).2)
      as Hk.
    fold joined in Hk. rewrite Hk. done. }
  subst tasks joined.
  destruct (startParts E parts filePath w) as [tasks w1]. cbn [fst snd] in *.
  destruct (settleAll _ _ _ _ _ _ _ _) as [[rp rejected] w2].
  cbn [fst snd] in *. subst rejected. rewrite Hall. split.
  - intros [out Hout] Hon.
    destruct (res_map rp) as [consumer|] eqn:Hmap; [eauto|].
    apply andb_true_iff in Hon as [Hsm Hscript].
    revert Hout. rewrite mergeParts_unfold. cbn zeta.
    rewrite mergeStyles_spec. unfold mergeScript. rewrite Hscript, Hsm.
    destruct (generateSourceMap_no_inMap E filePath content rp (res_script rp)
                (if injects env opts (join nl (res_styles rp))
                 then styleInjection E
                        (JSON_stringify E (join nl (res_styles rp)))
                 else EmptyString) Hmap) as [msg ->].
    done.
  - intros Hmap.
    destruct (mergeParts_returns env opts content filePath (scopeId E filePath)
                parts (existsb part_scoped (parts_styles parts)) rp w2
                Hprim Htemplate Hmap) as [out Hout].
    destruct (mergeParts _ _ _ _ _ _ _ _ _ _) as [r w3]. cbn [fst] in *.
    subst r. eauto.
Qed.



End Delivery.

(** ** Dependency notifications and external sources *)

Section Notifications.

Context (E : Externals).


(** The path [loadSrc] resolves for a part that names an external source. *)
Definition srcPath (filePath : string) (part : block) : option string :=
  if truthy (attr (part_src part))
  then Some (path_resolve E (path_dirname E filePath)
               (to_str (attr (part_src part))))
  else None.























(** X11. A part with a [src] attribute takes its content from the file, not
    from its own text: [getContent] first emits the [dependency]
    notification with the resolved path, then reads. A file that is there
    gives its text; a file that is not gives [undefined] and one line on the
    console, and nothing is thrown. *)
Theorem external_source part filePath w src :
  part_src part = Some src →
  src ≠ EmptyString →
  getContent E part filePath w =
  (match w_fs w !! path_resolve E (path_dirname E filePath) src with
   | Some text => VString text
   | None => VUndefined
   end,
   {| w_fs := w_fs w; resolvedPartsCache := resolvedPartsCache w;
      w_nextRef := w_nextRef w;
      w_trace :=
        w_trace w ++
        [ Emit_dependency (path_resolve E (path_dirname E filePath) src);
          Read_file (path_resolve E (path_dirname E filePath) src) ] ++
        match w_fs w !! path_resolve E (path_dirname E filePath) src with
        | Some _ => []
        | None =>
            [ Console_error
                ("Failed to load src: " +:+ dq +:+ src +:+ dq +:+
                 " from file: " +:+ dq +:+ filePath +:+ dq) ]
        end |}).
Proof.
  intros Hsrc Hne. unfold getContent. rewrite Hsrc. cbn [attr truthy to_str].
  case_bool_decide; [done|]. cbn [negb].
  unfold loadSrc, readFileSync, mbind, state_bind, log, fs_lookup. cbn.
  destruct (w_fs w !! path_resolve E (path_dirname E filePath) src); cbn;
    by rewrite <- !app_assoc.
Qed.

(** X12. A script part with a language tag is compiled under that tag and
    under no other: by the registry entry of the tag when there is one; else
    by what the registry object inherits under that name, when it does; by
    the identity when the registry has no such property at all. Babel is the
    default of untagged scripts only; a tagged script never falls back to
    it. *)
Theorem tagged_script_ignores_babel part filePath w lang :
  part_lang part = Some lang →
  lang ≠ EmptyString →
  p_promise (processScript E (Some part) filePath w).1 =
  Some (match compilers E !! lang with
        | Some compile => compile (getContent E part filePath w).1 filePath
        | None =>
            match objectPrototype lang with
            | Some inherited => inherited
            | None => Reported [] (Ret (getContent E part filePath w).1)
            end
        end).
Proof.
  intros Hlang Hne. unfold processScript. cbn zeta. unfold scriptLang.
  rewrite Hlang. cbn [attr truthy]. case_bool_decide; [done|]. cbn [negb].
  unfold mbind, state_bind.
  destruct (getContent E part filePath w) as [script w1]. cbn [fst].
  unfold compileAsPromise. cbn [to_str].
  destruct (compilers E !! lang) as [compile|]; [done|].
  by destruct (objectPrototype lang).
Qed.

End Notifications.

(** ** More on the source map and on the styles *)

Section Mappings.

Context (E : Externals).

(** X13. When something was emitted before the script block (the style
    injection), the builder adds to every script line the number of pieces
    [split] makes of that output, and one more. The generated line of the
    mapping of script line [ln] is then [ln] plus the line feeds of what was
    emitted plus two, which is one more than the line of the output that
    script line is on. *)
Theorem script_mappings_after_output filePath content rp s consumer output :
  res_map rp = Some consumer →
  output ≠ EmptyString →
  (∃ g,
     generateSourceMap E filePath content rp (VString s) output = Ret g ∧
     ∀ m, m ∈ g_mappings g ↔
          ∃ ln o, 1 ≤ ln ≤ length (split_lines s) ∧
                  consumer !! ln = Some o ∧ 0 < o ∧
                  m = {| m_source := g_hashedFilename g;
                         m_generated := ln + count_lf output + 2;
                         m_original := o |}) ∧
  (∀ a b, s = a +:+ b →
     ∃ close,
       output +:+ scriptBlock s =
         (output +:+ ";(function(){" +:+ nl +:+ a) +:+ b +:+ close ∧
       S (count_lf (output +:+ ";(function(){" +:+ nl +:+ a)) + 1 =
         S (count_lf a) + count_lf output + 2).
Proof.
  intros Hmap Hne. split.
  - unfold generateSourceMap. rewrite Hmap. cbn [truthy].
    case_bool_decide; [done|]. cbn [negb].
    eexists. split; [reflexivity|]. cbn [g_mappings g_hashedFilename].
    intros m. rewrite list_elem_of_omap, !length_split_lines. split.
    + intros (index & Hin & Hm). apply elem_of_seq in Hin.
      unfold lineMapping in Hm.
      destruct (consumer !! (index + 1)) as [[|n]|] eqn:Hl; try done.
      injection Hm as <-. exists (index + 1), (S n).
      split; [lia|]. split; [done|]. split; [lia|].
      by replace (index + 1 + S (count_lf output + 1))
        with (index + 1 + count_lf output + 2) by lia.
    + intros (ln & o & [Hlo Hhi] & Hl & Ho & ->).
      exists (ln - 1). split; [apply elem_of_seq; lia|].
      unfold lineMapping. replace (ln - 1 + 1) with ln by lia. rewrite Hl.
      destruct o as [|n]; [lia|].
      by replace (ln + (S (count_lf output) + 1))
        with (ln + count_lf output + 2) by lia.
  - intros a b ->. unfold scriptBlock. eexists. split.
    + rewrite !app_assoc_s. reflexivity.
    + rewrite !count_lf_app. cbn. lia.
Qed.

(** X14. With a source map under construction, the template step maps the
    lines of the render-function attachment and no others: one mapping for
    each line the attachment adds to the output, from the line on which the
    attachment starts, all to the line of the document on which the template
    section starts. *)
Theorem template_mappings_cover_attachment env content parts rp map output
    template :
  truthy (res_template rp) = true →
  parts_template parts = Some template →
  ∃ g' added,
    mergeTemplate env content parts rp (Some map) output =
      Ret (Some g',
           output +:+
           (if negb (isProduction env) && negb (isServer env)
            then functionalGuard else EmptyString) +:+
           renderAttachment (res_template rp)) ∧
    g_mappings g' = g_mappings map ++ added ∧
    m_generated <$> added =
      seq (S (count_lf
                (output +:+
                 (if negb (isProduction env) && negb (isServer env)
                  then functionalGuard else EmptyString))))
          (count_lf (renderAttachment (res_template rp))) ∧
    Forall (λ m, m_source m = g_hashedFilename map ∧
                 m_original m =
                   S (count_lf (slice0 (part_start template) content)))
           added.
Proof.
  intros Ht Hsome. unfold mergeTemplate. rewrite Ht.
  set (guard := if negb (isProduction env) && negb (isServer env)
                then functionalGuard else EmptyString).
  assert ((if negb (isProduction env) && negb (isServer env)
           then output +:+ functionalGuard else output) = output +:+ guard)
    as ->.
  { subst guard. destruct (negb (isProduction env) && negb (isServer env));
      by rewrite ?app_nil_r_s. }
  unfold addTemplateMapping. rewrite Hsome.
  replace (length (split_lines (output +:+ guard)) =? 0) with false
    by (by rewrite length_split_lines).
  cbn [andb fmap throwable_fmap mbind throwable_bind].
  eexists _, _. split; [by rewrite app_assoc_s|].
  cbn [g_mappings]. split; [reflexivity|]. split.
  - rewrite <- list_fmap_compose, list_fmap_id, !length_split_lines.
    rewrite !count_lf_app. f_equal. lia.
  - apply Forall_fmap, Forall_forall. intros line _. cbn.
    by rewrite length_split_lines.
Qed.

(** The style a started processor pushes when it settles: the trimmed
    result of its transform, rewritten with the ScopeId and the scoped flag
    of its part; none when it is no style, or one that rejects. *)
Definition styleOf (opts : Options) (id : string) (t : pending) : option string :=
  match p_kind t, p_promise t with
  | Style part, Some (Reported _ (Ret (VString s))) =>
      match rewriteStyle E id (trim s) (part_scoped part) opts with
      | Ret css => Some css
      | Throw _ => None
      end
  | _, _ => None
  end.

Lemma settle_styles opts id t rp w :
  match (settle E opts id t rp w).1 with
  | Ret rp' => res_styles rp' = res_styles rp ++ option_list (styleOf opts id t)
  | Throw _ => styleOf opts id t = None
  end.
Proof.
  destruct (p_promise t) as [[emitted r|err|]|] eqn:Hp.
  2:{ unfold settle, styleOf. rewrite Hp. by destruct (p_kind t). }
  2,3: rewrite settle_idle by auto; unfold styleOf; rewrite Hp;
       destruct (p_kind t); cbn; by rewrite app_nil_r.
  rewrite (settle_reported E opts id t rp w emitted r Hp).
  unfold styleOf. rewrite Hp.
  destruct r as [res|err]; [|by destruct (p_kind t)].
  generalize (calledBack emitted (Ret res) w). intros w1.
  destruct (p_kind t) as [| |part]; cbn [thenPart].
  - unfold thenTemplate, compileTemplate.
    destruct (translate E res) as [[render static]|e]; [|done].
    unfold mbind, state_bind, alloc, mret, state_ret. cbn.
    by rewrite app_nil_r.
  - unfold thenScript.
    destruct res as [| | |ref [code map|render static]]; cbn;
      by rewrite ?app_nil_r.
  - unfold thenStyle. destruct res as [| |s|ref o]; cbn; try done.
    by destruct (rewriteStyle E id (trim s) (part_scoped part) opts).
Qed.

Lemma settleAll_styles opts id tasks order :
  ∀ rp rejected w,
    res_styles (settleAll E opts id tasks order rp rejected w).1.1 =
    res_styles rp ++ omap (λ i, tasks !! i ≫= styleOf opts id) order.
Proof.
  induction order as [|i order IH]; intros rp rejected w; cbn [settleAll].
  { cbn. by rewrite app_nil_r. }
  cbn [omap list_omap].
  destruct (tasks !! i) as [t|] eqn:Hi; cbn [mbind option_bind].
  2:{ apply IH. }
  unfold mbind at 1, state_bind.
  pose proof (settle_styles opts id t rp w) as Hs.
  destruct (settle E opts id t rp w) as [[rp'|e] w1]; cbn [fst snd] in *.
  - rewrite IH, Hs. destruct (styleOf opts id t); cbn;
      by rewrite <- ?app_assoc, ?app_nil_r.
  - rewrite IH, Hs. done.
Qed.

(** X15. The styles accumulate in the order in which the style processors
    settle, not in the order of the document: after a join in which each
    promise settles at most once, the cache entry a delivered run leaves
    holds the style of each style part in the order of settlement, each
    trimmed and rewritten with the ScopeId of the file and the scoped flag
    of its own part. *)
Theorem styles_in_settlement_order env opts content filePath order w parts
    out w' :
  parseComponent E content = Ret parts →
  NoDup order →
  compile E env opts content filePath order w = (CbOutput out, w') →
  ∃ rp,
    resolvedPartsCache w' !! scopeId E filePath = Some rp ∧
    res_styles rp =
      omap (λ i, (startParts E parts filePath w).1 !! i ≫=
                 styleOf opts (scopeId E filePath)) order.
Proof.
  intros Hparse _ H. apply compile_output_cache in H
    as (parts' & tasks & w1 & rp & w2 & Hp & Hs & Hj & _ & _ & _ & Hc & _).
  rewrite Hparse in Hp. injection Hp as <-.
  exists rp. split; [by rewrite Hc, lookup_insert_eq|].
  pose proof (settleAll_styles opts (scopeId E filePath) tasks order emptyParts
                None w1) as Hst.
  rewrite Hj in Hst. rewrite Hs. exact Hst.
Qed.

End Mappings.

(** ** The ScopeId *)

Section Scoped.

Context (E : Externals).

(** What a delivered run shows of the ScopeId [id]: the output attaches it to
    the options, on a line of its own just before the hot-reload block (or
    the end); the parts of the run are filed in the cache under it; and
    every style of the run has been rewritten with it. *)
Definition scopedWith (id : string) (env : Env) (opts : Options)
    (out : string) (w' : World) : Prop :=
  (∃ pre hot comment,
     out = pre +:+
           "__vue__options__._scopeId = " +:+ dq +:+ id +:+ dq +:+ nl +:+
           hot +:+ comment ∧
     (if hotReload env
      then ∃ rest, hot = "if (module.hot) {(function () {" +:+ rest
      else hot = EmptyString) ∧
     (comment = EmptyString ∨ ∃ g, comment = nl +:+ toComment E g)) ∧
  (∃ rp,
     resolvedPartsCache w' !! id = Some rp ∧
     Forall (λ css, ∃ s scoped, rewriteStyle E id s scoped opts = Ret css)
            (res_styles rp)).

Lemma styleOf_rewritten opts id t css :
  styleOf E opts id t = Some css →
  ∃ s scoped, rewriteStyle E id s scoped opts = Ret css.
Proof.
  unfold styleOf. destruct (p_kind t) as [| |part]; try done.
  destruct (p_promise t) as [[emitted [[| |s|ref o]|e]|e|]|]; try done.
  destruct (rewriteStyle E id (trim s) (part_scoped part) opts) as [c|e] eqn:Hr;
    [|done].
  intros [= <-]. eauto.
Qed.

Lemma scoped_run env opts content filePath order w parts out w' :
  parseComponent E content = Ret parts →
  existsb part_scoped (parts_styles parts) = true →
  compile E env opts content filePath order w = (CbOutput out, w') →
  scopedWith ("data-v-" +:+ genId E filePath) env opts out w'.
Proof.
  intros Hparse Hscoped H. apply compile_output_cache in H
    as (parts' & tasks & w1 & rp & w2 & Hp & Hs & Hj & _ & _ & _ & Hc &
        comment & Hcomment & ->).
  rewrite Hparse in Hp. injection Hp as <-. rewrite Hscoped.
  change (scopeId E filePath) with ("data-v-" +:+ genId E filePath) in *.
  split.
  - set (i := if injects env opts _ then _ else _).
    set (a := if truthy (res_script rp) then _ else _).
    set (b := if truthy (res_template rp) then _ else _).
    set (hot := if hotReload env then _ else _).
    exists (i +:+ a +:+ optionsBinding +:+ b), hot, comment.
    split; [|split; [|done]].
    + unfold scopeIdLine. by rewrite !app_assoc_s.
    + subst hot. destruct (hotReload env); [|done].
      unfold hotReloadBlock, hotReloadHead. rewrite !app_assoc_s. eauto.
  - exists rp. split; [by rewrite Hc, lookup_insert_eq|].
    pose proof (settleAll_styles E opts ("data-v-" +:+ genId E filePath) tasks
                  order emptyParts None w1) as Hst.
    rewrite Hj in Hst. cbn [fst snd emptyParts res_styles app] in Hst.
    rewrite Hst. apply Forall_forall. intros css Hin.
    apply list_elem_of_omap in Hin as (i & _ & Hi).
    destruct (tasks !! i) as [t|]; [|done].
    by apply (styleOf_rewritten opts _ t).
Qed.

(** C7. When a style part of the document is marked scoped, the output has
    the line that attaches the ScopeId to the options binding,
    [__vue__options__._scopeId = "data-v-..."], and the id in it is made of
    the file path alone: two compilations of one path, whatever the
    contents, options, environment, order of settlement and state they run
    in, attach one and the same id, which is also the id their styles were
    rewritten with and the key their parts are cached under. *)
Theorem scoped_style_attaches_scopeId env1 env2 opts1 opts2 content1 content2
    filePath order1 order2 w1 w2 parts1 parts2 out1 out2 w1' w2' :
  parseComponent E content1 = Ret parts1 →
  parseComponent E content2 = Ret parts2 →
  existsb part_scoped (parts_styles parts1) = true →
  existsb part_scoped (parts_styles parts2) = true →
  compile E env1 opts1 content1 filePath order1 w1 = (CbOutput out1, w1') →
  compile E env2 opts2 content2 filePath order2 w2 = (CbOutput out2, w2') →
  ∃ id,
    id = "data-v-" +:+ genId E filePath ∧
    scopedWith id env1 opts1 out1 w1' ∧
    scopedWith id env2 opts2 out2 w2'.
Proof.
  intros Hp1 Hp2 Hs1 Hs2 H1 H2. eexists. split; [reflexivity|]. split.
  - exact (scoped_run env1 opts1 content1 filePath order1 w1 parts1 out1 w1'
             Hp1 Hs1 H1).
  - exact (scoped_run env2 opts2 content2 filePath order2 w2 parts2 out2 w2'
             Hp2 Hs2 H2).
Qed.

End Scoped.

(** * [applyConfig]

    The module keeps two tables: [options], read by [compile], and the
    compiler registry. [applyConfig] copies the keys of a configuration
    object into the first, except [customCompilers], whose entries it
    registers in the second. *)

Section Config.

(** The values of the options; [truth] is their truth as a condition. *)
Context {V : Type} (truth : V → bool).

(** The two tables. *)
Record Tables := {
  tbl_options : gmap string V;
  tbl_compilers : gmap string transform
}.

(** A configuration object, by its own keys: [config.customCompilers] when
    the key is there, an object of transforms by name, and the other keys
    with their values, in the order of [Object.keys]. *)
Record Config := {
  cfg_keys : list (string * V);
  cfg_customCompilers : option (list (string * transform))
}.

(** [options[key] = config[key]], for a key that is not [customCompilers]. *)
Definition setOption (options : gmap string V) (entry : string * V)
    : gmap string V :=
  if bool_decide (entry.1 ≠ "customCompilers")
  then <[entry.1 := entry.2]> options
  else options.

(** [compilers[name] = config[key][name]]. *)
Definition register (compilers : gmap string transform)
    (entry : string * transform) : gmap string transform :=
  <[entry.1 := entry.2]> compilers.

Definition applyConfig (config : Config) (t : Tables) : Tables :=
  {| tbl_options := foldl setOption (tbl_options t) (cfg_keys config);
     tbl_compilers :=
       match cfg_customCompilers config with
       | Some customCompilers =>
           foldl register (tbl_compilers t) customCompilers
       | None => tbl_compilers t
       end |}.



(** A table after a run of writes: each key has the value last written to
    it, or the value it had. *)
Lemma foldl_writes {A B} (write : gmap string A → B → gmap string A)
    (l : list B) :
  (∀ m x k, write m x !! k =
            from_option Some (m !! k) (write ∅ x !! k)) →
  ∀ m k, foldl write m l !! k =
         from_option Some (m !! k) (foldl write ∅ l !! k).
Proof.
  intros Hw. induction l as [|x l IH]; intros m k; cbn [foldl].
  { by rewrite lookup_empty. }
  rewrite (IH (write m x)), (IH (write ∅ x)).
  destruct (foldl write ∅ l !! k) as [v|]; cbn [from_option]; [done|].
  apply Hw.
Qed.

Lemma setOption_write m x k :
  setOption m x !! k = from_option Some (m !! k) (setOption ∅ x !! k).
Proof.
  unfold setOption. case_bool_decide; [|by rewrite lookup_empty].
  destruct (decide (x.1 = k)) as [<-|Hne].
  - by rewrite !lookup_insert_eq.
  - by rewrite !lookup_insert_ne, lookup_empty.
Qed.

Lemma register_write m x k :
  register m x !! k = from_option Some (m !! k) (register ∅ x !! k).
Proof.
  unfold register. destruct (decide (x.1 = k)) as [<-|Hne].
  - by rewrite !lookup_insert_eq.
  - by rewrite !lookup_insert_ne, lookup_empty.
Qed.





(** X18. Applying a configuration twice is applying it once: the second
    application leaves the options and the registry as the first made
    them. *)
Theorem applyConfig_idempotent config t :
  applyConfig config (applyConfig config t) = applyConfig config t.
Proof.
  unfold applyConfig. cbn [tbl_options tbl_compilers]. f_equal.
  - apply map_eq. intros k.
    rewrite (foldl_writes setOption (cfg_keys config) setOption_write
               (foldl setOption (tbl_options t) (cfg_keys config)) k).
    rewrite (foldl_writes setOption (cfg_keys config) setOption_write
               (tbl_options t) k).
    by destruct (foldl setOption ∅ (cfg_keys config) !! k).
  - destruct (cfg_customCompilers config) as [cs|]; [|done].
    apply map_eq. intros k.
    rewrite (foldl_writes register cs register_write
               (foldl register (tbl_compilers t) cs) k).
    rewrite (foldl_writes register cs register_write (tbl_compilers t) k).
    by destruct (foldl register ∅ cs !! k).
Qed.

End Config.

(** * Runs of the further properties on the concrete instance *)

(** C6, at [doc_script] followed by [doc_script2] under one path. *)
Lemma script_change_reloads_run :
  ∃ out2 w2,
    compile Demo.plain Demo.development Demo.noMap Demo.doc_script2 Demo.file
      [1]
      (compile Demo.plain Demo.development Demo.noMap Demo.doc_script
         Demo.file [1] Demo.world0).2 = (CbOutput out2, w2) ∧
    ∃ pre comment,
      out2 = pre +:+
             "  } else {" +:+ nl +:+
             "    hotAPI.reload(" +:+ dq +:+ "data-v-" +:+
             genId Demo.plain Demo.file +:+ dq +:+ ", __vue__options__)" +:+
             nl +:+
             "  }" +:+ nl +:+
             "})()}" +:+ comment ∧
      (comment = EmptyString ∨ ∃ g, comment = nl +:+ toComment Demo.plain g).
Proof.
  eexists _, _. split; [vm_compute; reflexivity|].
  eapply (script_change_reloads Demo.plain Demo.development Demo.development
            Demo.noMap Demo.noMap Demo.doc_script Demo.doc_script2 Demo.file
            [1] [1] Demo.world0);
    vm_compute; reflexivity.
Defined.

(** C7, at [doc_scoped] compiled in development and in production. *)
Lemma scoped_style_attaches_scopeId_run :
  ∃ out1 out2 w1 w2,
    compile Demo.withBabel Demo.development Demo.noMap Demo.doc_scoped
      Demo.file [2; 0; 1] Demo.world0 = (CbOutput out1, w1) ∧
    compile Demo.withBabel Demo.production Demo.withMap Demo.doc_scoped
      Demo.file [1; 2] Demo.world0 = (CbOutput out2, w2) ∧
    ∃ id,
      id = "data-v-" +:+ genId Demo.withBabel Demo.file ∧
      scopedWith Demo.withBabel id Demo.development Demo.noMap out1 w1 ∧
      scopedWith Demo.withBabel id Demo.production Demo.withMap out2 w2.
Proof.
  eexists _, _, _, _. split; [vm_compute; reflexivity|].
  split; [vm_compute; reflexivity|].
  eapply (scoped_style_attaches_scopeId Demo.withBabel Demo.development
            Demo.production Demo.noMap Demo.withMap Demo.doc_scoped
            Demo.doc_scoped Demo.file [2; 0; 1] [1; 2] Demo.world0 Demo.world0);
    vm_compute; reflexivity.
Defined.

(** C9 (the code does otherwise). The registry is a plain object, and
    [compilers[lang]] finds what it inherits: a style tagged [constructor],
    compiled with a registry that has no entry of that name, is not passed
    through. [Object] is called in the place of a transform and never calls
    back, so the promise never settles and, whatever the order in which the
    others do, [compile] never calls its callback. A tag that names no
    property at all, such as [scss] here, is compiled by the identity. *)
Theorem inherited_tag_never_settles :
  compilers Demo.plain !! "constructor" = None ∧
  compileAsPromise Demo.plain "style" (VString "p { color: red }")
    (VString "constructor") Demo.file Demo.world0 =
  (Silent, Demo.world0) ∧
  compileAsPromise Demo.plain "style" (VString "p { color: red }")
    (VString "scss") Demo.file Demo.world0 =
  (Reported [] (Ret (VString "p { color: red }")), Demo.world0) ∧
  ∀ order,
    compile Demo.plain Demo.development Demo.noMap Demo.doc_constructor
      Demo.file order Demo.world0 =
    (Pending, Demo.world0).
Proof.
  split; [reflexivity|]. split; [reflexivity|]. split; [reflexivity|].
  intros order.
  rewrite (compile_unfold Demo.plain Demo.development Demo.noMap
             Demo.doc_constructor Demo.file order Demo.world0
             {| parts_template := None; parts_script := None;
                parts_styles :=
                  [Demo.block_of (Some "constructor") None "p { color: red }"
                     false 26] |} eq_refl).
  assert (startParts Demo.plain
            {| parts_template := None; parts_script := None;
               parts_styles :=
                 [Demo.block_of (Some "constructor") None "p { color: red }"
                    false 26] |} Demo.file Demo.world0 =
          ([ {| p_kind := Template; p_promise := None |};
             {| p_kind := Script; p_promise := None |};
             {| p_kind :=
                  Style (Demo.block_of (Some "constructor") None
                           "p { color: red }" false 26);
                p_promise := Some Silent |} ], Demo.world0)) as ->
    by (vm_compute; reflexivity).
  rewrite settleAll_idle; [reflexivity|].
  intros [|[|[|i]]] t Ht; try discriminate; injection Ht as <-; auto.
Qed.

(** X15, at [doc_stylus] when the second style settles first. *)
Lemma styles_in_settlement_order_run :
  ∃ out w',
    compile Demo.withStylus Demo.development Demo.noMap Demo.doc_stylus
      Demo.file [3; 2]
      {| w_fs := {[ "/app/./a.styl" := "a { color: blue }" ]};
         resolvedPartsCache := ∅; w_nextRef := 1; w_trace := [] |} =
    (CbOutput out, w') ∧
    ∃ rp,
      resolvedPartsCache w' !! scopeId Demo.withStylus Demo.file = Some rp ∧
      res_styles rp = ["p { color: red }"; "a { color: blue }"].
Proof.
  eexists _, _. split; [vm_compute; reflexivity|].
  edestruct (styles_in_settlement_order Demo.withStylus Demo.development
               Demo.noMap Demo.doc_stylus Demo.file [3; 2]
               {| w_fs := {[ "/app/./a.styl" := "a { color: blue }" ]};
                  resolvedPartsCache := ∅; w_nextRef := 1; w_trace := [] |}
               {| parts_template := None; parts_script := None;
                  parts_styles :=
                    [Demo.block_of (Some "stylus") (Some "./a.styl") EmptyString
                       false 36;
                     Demo.block_of None None "p { color: red }" false 51] |})
    as (rp & Hc & Hs).
  - reflexivity.
  - apply NoDup_cons. split; [|apply NoDup_singleton].
    intros H. apply list_elem_of_singleton in H. discriminate.
  - vm_compute; reflexivity.
  - exists rp. split; [exact Hc|]. rewrite Hs. vm_compute. reflexivity.
Defined.

(** X2, at [doc_scoped] compiled in development. *)
Lemma style_notification_run :
  ∃ out w',
    compile Demo.withBabel Demo.development Demo.noMap Demo.doc_scoped
      Demo.file [2; 0; 1] Demo.world0 = (CbOutput out, w') ∧
    ∃ rp evs,
      resolvedPartsCache w' !! scopeId Demo.withBabel Demo.file = Some rp ∧
      Forall noStyle evs ∧
      w_trace w' =
        w_trace Demo.world0 ++ evs ++
        (if truthy (VString (join nl (res_styles rp))) &&
            negb (isServer Demo.development)
         then [Emit_style Demo.file (join nl (res_styles rp))] else []).
Proof.
  eexists _, _. split; [vm_compute; reflexivity|].
  eapply (style_notification Demo.withBabel Demo.development Demo.noMap
            Demo.doc_scoped Demo.file [2; 0; 1] Demo.world0).
  vm_compute; reflexivity.
Defined.



(** X5, at [doc_template] compiled twice in a row. *)
Lemma template_update_action_run :
  ∃ out2 w1 w2,
    w1 = (compile Demo.plain Demo.development Demo.noMap Demo.doc_template
            Demo.file [0] Demo.world0).2 ∧
    compile Demo.plain Demo.development Demo.noMap Demo.doc_template
      Demo.file [0] w1 = (CbOutput out2, w2) ∧
    ∃ pre comment,
      out2 = pre +:+
             "  } else {" +:+ nl +:+
             (if strict_ne (cached w2 (scopeId Demo.plain Demo.file) res_script)
                           (cached w1 (scopeId Demo.plain Demo.file) res_script)
              then "    hotAPI.reload("
              else "    hotAPI.rerender(") +:+
             dq +:+ "data-v-" +:+ genId Demo.plain Demo.file +:+ dq +:+
             ", __vue__options__)" +:+ nl +:+
             "  }" +:+ nl +:+
             "})()}" +:+ comment ∧
      (comment = EmptyString ∨ ∃ g, comment = nl +:+ toComment Demo.plain g).
Proof.
  eexists _, _, _. split; [vm_compute; reflexivity|].
  split; [vm_compute; reflexivity|].
  eapply (template_update_action Demo.plain Demo.development Demo.development
            Demo.noMap Demo.noMap Demo.doc_template Demo.doc_template Demo.file
            [0] [0] Demo.world0).
  - intros id rp H. vm_compute in H. discriminate.
  - vm_compute; reflexivity.
  - vm_compute; reflexivity.
  - vm_compute; reflexivity.
  - by eexists.
  - reflexivity.
Defined.

(** X6, at [doc_script] compiled with an empty cache. *)
Lemma first_compile_reloads_run :
  ∃ out w',
    compile Demo.plain Demo.development Demo.noMap Demo.doc_script Demo.file
      [1] Demo.world0 = (CbOutput out, w') ∧
    ∃ pre comment,
      out = pre +:+
            "  } else {" +:+ nl +:+
            "    hotAPI.reload(" +:+ dq +:+ "data-v-" +:+
            genId Demo.plain Demo.file +:+ dq +:+ ", __vue__options__)" +:+
            nl +:+
            "  }" +:+ nl +:+
            "})()}" +:+ comment ∧
      (comment = EmptyString ∨ ∃ g, comment = nl +:+ toComment Demo.plain g).
Proof.
  eexists _, _. split; [vm_compute; reflexivity|].
  eapply (first_compile_reloads Demo.plain Demo.development Demo.noMap
            Demo.doc_script Demo.file [1] Demo.world0).
  - reflexivity.
  - vm_compute; reflexivity.
  - reflexivity.
  - vm_compute. discriminate.
Defined.

(** X7, at [doc_script] compiled twice in a row. *)
Lemma unchanged_script_no_update_run :
  ∃ out2 w1 w2,
    w1 = (compile Demo.plain Demo.development Demo.noMap Demo.doc_script
            Demo.file [1] Demo.world0).2 ∧
    compile Demo.plain Demo.development Demo.noMap Demo.doc_script
      Demo.file [1] w1 = (CbOutput out2, w2) ∧
    ∃ pre disposeStyle comment,
      out2 = pre +:+
             hotReloadHead Demo.plain disposeStyle
               (scopeId Demo.plain Demo.file) +:+
             hotReloadTail +:+ comment ∧
      (comment = EmptyString ∨ ∃ g, comment = nl +:+ toComment Demo.plain g).
Proof.
  eexists _, _, _. split; [vm_compute; reflexivity|].
  split; [vm_compute; reflexivity|].
  eapply (unchanged_script_no_update Demo.plain Demo.development
            Demo.development Demo.noMap Demo.noMap Demo.doc_script
            Demo.doc_script Demo.file [1] [1] Demo.world0);
    vm_compute; reflexivity.
Defined.

(** X8, at [doc_script]: with source maps off the output is delivered; with
    source maps on and no transform it is not. *)
Lemma compile_delivers_run :
  (∃ out,
     (compile Demo.plain Demo.development Demo.withMap Demo.doc_script
        Demo.file [1] Demo.world0).1 = CbOutput out) ↔
  (sourceMap Demo.withMap &&
   truthy
     (res_script
        (settleAll Demo.plain Demo.withMap (scopeId Demo.plain Demo.file)
           (startParts Demo.plain (Demo.script_only "module.exports = {}")
              Demo.file Demo.world0).1
           [1] emptyParts None
           (startParts Demo.plain (Demo.script_only "module.exports = {}")
              Demo.file Demo.world0).2).1.1) = true →
   is_Some
     (res_map
        (settleAll Demo.plain Demo.withMap (scopeId Demo.plain Demo.file)
           (startParts Demo.plain (Demo.script_only "module.exports = {}")
              Demo.file Demo.world0).1
           [1] emptyParts None
           (startParts Demo.plain (Demo.script_only "module.exports = {}")
              Demo.file Demo.world0).2).1.1)).
Proof.
  apply (compile_delivers Demo.plain Demo.development Demo.withMap
           Demo.doc_script Demo.file [1] Demo.world0
           (Demo.script_only "module.exports = {}"));
    reflexivity.
Defined.



(** X11, at the style of [doc_style_src], with the file there. *)
Lemma external_source_run :
  getContent Demo.plain
    (Demo.block_of None (Some "./missing.css") EmptyString false 27) Demo.file
    {| w_fs := {[ "/app/./missing.css" := "p { color: red }" ]};
       resolvedPartsCache := ∅; w_nextRef := 1; w_trace := [] |} =
  (VString "p { color: red }",
   {| w_fs := {[ "/app/./missing.css" := "p { color: red }" ]};
      resolvedPartsCache := ∅; w_nextRef := 1;
      w_trace := [ Emit_dependency "/app/./missing.css";
                   Read_file "/app/./missing.css" ] |}).
Proof.
  etrans.
  - apply (external_source Demo.plain
             (Demo.block_of None (Some "./missing.css") EmptyString false 27)
             Demo.file
             {| w_fs := {[ "/app/./missing.css" := "p { color: red }" ]};
                resolvedPartsCache := ∅; w_nextRef := 1; w_trace := [] |}
             "./missing.css"); [reflexivity|discriminate].
  - vm_compute; reflexivity.
Defined.

(** X12, at a script tagged [coffee], with babel there and no entry for the
    tag: the script is passed on as it is. *)
Lemma tagged_script_ignores_babel_run :
  p_promise
    (processScript Demo.withBabel
       (Some (Demo.block_of (Some "coffee") None "module.exports = {}" false 8))
       Demo.file Demo.world0).1 =
  Some (Reported [] (Ret (VString "module.exports = {}"))).
Proof.
  apply (tagged_script_ignores_babel Demo.withBabel
           (Demo.block_of (Some "coffee") None "module.exports = {}" false 8)
           Demo.file Demo.world0 "coffee"); [reflexivity|discriminate].
Defined.

(** X13, at a script of one line after one line of output. *)
Lemma script_mappings_after_output_run :
  (∃ g,
     generateSourceMap Demo.withBabel Demo.file Demo.doc_script
       {| res_template := VNull; res_script := VString "module.exports = {}";
          res_map := Some {[ 1 := 1 ]}; res_styles := [] |}
       (VString "module.exports = {}") ("var a" +:+ nl) = Ret g ∧
     ∀ m, m ∈ g_mappings g ↔
          ∃ ln o, 1 ≤ ln ≤ length (split_lines "module.exports = {}") ∧
                  ({[ 1 := 1 ]} : rawmap) !! ln = Some o ∧ 0 < o ∧
                  m = {| m_source := g_hashedFilename g;
                         m_generated := ln + count_lf ("var a" +:+ nl) + 2;
                         m_original := o |}) ∧
  (∀ a b, "module.exports = {}" = a +:+ b →
     ∃ close,
       ("var a" +:+ nl) +:+ scriptBlock "module.exports = {}" =
         (("var a" +:+ nl) +:+ ";(function(){" +:+ nl +:+ a) +:+ b +:+ close ∧
       S (count_lf (("var a" +:+ nl) +:+ ";(function(){" +:+ nl +:+ a)) + 1 =
         S (count_lf a) + count_lf ("var a" +:+ nl) + 2).
Proof.
  apply (script_mappings_after_output Demo.withBabel Demo.file Demo.doc_script
           {| res_template := VNull; res_script := VString "module.exports = {}";
              res_map := Some {[ 1 := 1 ]}; res_styles := [] |}
           "module.exports = {}" {[ 1 := 1 ]} ("var a" +:+ nl));
    [reflexivity|discriminate].
Defined.

(** X14, at the template of [doc_template] in development, after one line
    of output. *)
Lemma template_mappings_cover_attachment_run :
  ∃ g' added,
    mergeTemplate Demo.development Demo.doc_template
      {| parts_template := Some (Demo.block_of None None "<p>hi</p>" false 10);
         parts_script := None; parts_styles := [] |}
      {| res_template := VObject 1 (RenderFns "function(){}" "[]");
         res_script := VNull; res_map := None; res_styles := [] |}
      (Some {| g_sourceContent := None; g_mappings := [];
               g_hashedFilename := "a.vue?0c1f0d7a" |})
      optionsBinding =
    Ret (Some g',
         optionsBinding +:+ functionalGuard +:+
         renderAttachment (VObject 1 (RenderFns "function(){}" "[]"))) ∧
    g_mappings g' = [] ++ added ∧
    m_generated <$> added = [3; 4] ∧
    Forall (λ m, m_source m = "a.vue?0c1f0d7a" ∧ m_original m = 1) added.
Proof.
  pose proof (template_mappings_cover_attachment Demo.development
                Demo.doc_template
                {| parts_template :=
                     Some (Demo.block_of None None "<p>hi</p>" false 10);
                   parts_script := None; parts_styles := [] |}
                {| res_template := VObject 1 (RenderFns "function(){}" "[]");
                   res_script := VNull; res_map := None; res_styles := [] |}
                {| g_sourceContent := None; g_mappings := [];
                   g_hashedFilename := "a.vue?0c1f0d7a" |}
                optionsBinding
                (Demo.block_of None None "<p>hi</p>" false 10)
                eq_refl eq_refl) as (g' & added & H1 & H2 & H3 & H4).
  exists g', added.
  split; [exact H1|]. split; [exact H2|]. split; [exact H3|exact H4].
Defined.


